(** * VirtualList.vue: the windowed list renderer

    A shallow embedding of the [<script setup>] block and the template of
    the virtual-scrolling list component, together with the part of the
    JavaScript semantics its expressions rely on (number arithmetic with
    [NaN] and the infinities, truthiness and [||], property access,
    [Array.prototype.slice]); of the demo page that uses the component;
    and of the theme manager with its wiring in main.ts.

    JavaScript numbers are modelled as exact rationals extended with
    [NaN], [+Infinity] and [-Infinity]: rounding of IEEE doubles and the
    sign of zero are outside the model.  The statements about the two
    indices are therefore kept independent of the value of a quotient
    that lies next to a whole number: they are order and monotonicity
    facts, bounds with a margin of one item, or exact values on whole
    numbers, where the quotients of the source are exact. *)

From Stdlib Require Import ZArith QArith Qcanon Qround Lia Lqa Ascii String.
From stdpp Require Import base option list gmap strings pretty.

Local Open Scope Z_scope.

(** ** JavaScript numbers and values *)

Module JS.

Inductive number : Type :=
  | NaN
  | PosInf
  | NegInf
  | Fin (q : Qc).

Definition ofZ (z : Z) : number := Fin (Qc_of_Z z).
Definition ofNat (n : nat) : number := ofZ (Z.of_nat n).

Definition neg (a : number) : number :=
  match a with
  | NaN => NaN
  | PosInf => NegInf
  | NegInf => PosInf
  | Fin x => Fin (- x)%Qc
  end.

(** [a + b] *)
Definition add (a b : number) : number :=
  match a, b with
  | NaN, _ => NaN
  | _, NaN => NaN
  | Fin x, Fin y => Fin (x + y)%Qc
  | PosInf, NegInf => NaN
  | NegInf, PosInf => NaN
  | PosInf, _ => PosInf
  | NegInf, _ => NegInf
  | Fin _, PosInf => PosInf
  | Fin _, NegInf => NegInf
  end.

(** [a - b] *)
Definition sub (a b : number) : number := add a (neg b).

(** An infinity scaled by a finite factor: the sign follows the factor,
    and [0 * Infinity] is [NaN]. *)
Definition scaleInf (inf : number) (x : Qc) : number :=
  match (x ?= 0)%Qc with
  | Eq => NaN
  | Gt => inf
  | Lt => neg inf
  end.

(** [a * b] *)
Definition mul (a b : number) : number :=
  match a, b with
  | NaN, _ => NaN
  | _, NaN => NaN
  | Fin x, Fin y => Fin (x * y)%Qc
  | Fin x, inf => scaleInf inf x
  | inf, Fin y => scaleInf inf y
  | PosInf, PosInf => PosInf
  | NegInf, NegInf => PosInf
  | PosInf, NegInf => NegInf
  | NegInf, PosInf => NegInf
  end.

(** [a / b]; a zero divisor is the positive zero. *)
Definition div (a b : number) : number :=
  match a, b with
  | NaN, _ => NaN
  | _, NaN => NaN
  | Fin x, Fin y =>
      match (y ?= 0)%Qc with
      | Eq =>
          match (x ?= 0)%Qc with
          | Eq => NaN
          | Gt => PosInf
          | Lt => NegInf
          end
      | _ => Fin (x / y)%Qc
      end
  | Fin _, _ => Fin 0%Qc
  | inf, Fin y =>
      match (y ?= 0)%Qc with
      | Lt => neg inf
      | _ => inf
      end
  | _, _ => NaN
  end.

(** [Math.max(a, b)] *)
Definition max (a b : number) : number :=
  match a, b with
  | NaN, _ => NaN
  | _, NaN => NaN
  | PosInf, _ => PosInf
  | _, PosInf => PosInf
  | NegInf, _ => b
  | _, NegInf => a
  | Fin x, Fin y => if decide (x < y)%Qc then b else a
  end.

(** [Math.min(a, b)] *)
Definition min (a b : number) : number :=
  match a, b with
  | NaN, _ => NaN
  | _, NaN => NaN
  | NegInf, _ => NegInf
  | _, NegInf => NegInf
  | PosInf, _ => b
  | _, PosInf => a
  | Fin x, Fin y => if decide (y < x)%Qc then b else a
  end.

(** [Math.floor(a)] *)
Definition floor (a : number) : number :=
  match a with
  | Fin x => ofZ (Qfloor x)
  | _ => a
  end.

(** [Math.ceil(a)] *)
Definition ceil (a : number) : number :=
  match a with
  | Fin x => ofZ (Qceiling x)
  | _ => a
  end.

(** Values: the primitives and plain records (own data properties). *)
#[warnings="-register-all"]
Inductive value : Type :=
  | VUndefined
  | VNull
  | VBool (b : bool)
  | VNum (n : number)
  | VStr (s : string)
  | VObj (fields : gmap string value).

(** ToBoolean *)
Definition truthy (v : value) : bool :=
  match v with
  | VUndefined | VNull => false
  | VBool b => b
  | VNum NaN => false
  | VNum (Fin x) => if decide (x = 0%Qc) then false else true
  | VNum _ => true
  | VStr s => if decide (s = EmptyString) then false else true
  | VObj _ => true
  end.

(** [a || b] *)
Definition or (a b : value) : value := if truthy a then a else b.

Inductive error : Type :=
  | TypeError.

(** The outcome of evaluating an expression that may throw. *)
Inductive completion (A : Type) : Type :=
  | Normal (a : A)
  | Throw (e : error).
Arguments Normal {A} a.
Arguments Throw {A} e.

Definition bind {A B} (c : completion A) (k : A -> completion B) : completion B :=
  match c with
  | Normal a => k a
  | Throw e => Throw e
  end.

(** [v[k]]: reading a property of [undefined] or [null] throws; a record
    yields the field or [undefined]; inherited properties and the
    properties of boxed primitives are not modelled. *)
Definition get (v : value) (k : string) : completion value :=
  match v with
  | VUndefined | VNull => Throw TypeError
  | VObj fields => Normal (default VUndefined (fields !! k))
  | _ => Normal VUndefined
  end.

(** ToIntegerOrInfinity on a finite number: truncation towards zero. *)
Definition trunc (x : Qc) : Z :=
  if decide (x < 0)%Qc then Qceiling x else Qfloor x.

(** The relative index of [Array.prototype.slice]: a negative argument
    counts from the end, and the result is clamped to [0 .. len]. *)
Definition relativeIndex (len : nat) (a : number) : nat :=
  match a with
  | NaN => 0%nat
  | NegInf => 0%nat
  | PosInf => len
  | Fin x =>
      let z := trunc x in
      if decide (z < 0) then Z.to_nat (Z.max (Z.of_nat len + z) 0)
      else Z.to_nat (Z.min z (Z.of_nat len))
  end.

(** [arr.slice(start, end)] *)
Definition slice {A} (arr : list A) (start end_ : number) : list A :=
  let k := relativeIndex (length arr) start in
  let final := relativeIndex (length arr) end_ in
  take (final - k) (drop k arr).

End JS.

(** ** The component *)

Module props.

(** [height: string | number] *)
Inductive heightT : Type :=
  | HNum (n : JS.number)
  | HStr (s : string).

(** [defineProps<{ data; height; itemHeight; keyField?; buffer? }>()];
    an optional prop that is not passed is [None] ([undefined]). *)
Record t : Type := {
  data : list JS.value;
  height : heightT;
  itemHeight : JS.number;
  keyField : option string;
  buffer : option JS.number
}.

End props.

Definition defaultKeyField : string := "id".
Definition defaultBuffer : JS.number := JS.ofZ 5.

(** The two refs of the component. *)
Record State : Type := {
  scrollTop : JS.number;
  containerHeight : JS.number
}.

(** [ref(0)] twice: the state the setup block creates. *)
Definition setup (p : props.t) : State :=
  {| scrollTop := JS.ofZ 0; containerHeight := JS.ofZ 0 |}.

(** [props.keyField || defaultKeyField] *)
Definition keyField (p : props.t) : string :=
  match props.keyField p with
  | Some s => if decide (s = EmptyString) then defaultKeyField else s
  | None => defaultKeyField
  end.

(** [props.buffer || defaultBuffer] *)
Definition buffer (p : props.t) : JS.number :=
  match props.buffer p with
  | Some n => if JS.truthy (JS.VNum n) then n else defaultBuffer
  | None => defaultBuffer
  end.

Section Computed.

Variable p : props.t.
Variable st : State.

Definition startIndex : JS.number :=
  JS.floor
    (JS.div
       (JS.max (JS.ofZ 0)
          (JS.sub (scrollTop st) (JS.mul (buffer p) (props.itemHeight p))))
       (props.itemHeight p)).

Definition endIndex : JS.number :=
  JS.min
    (JS.sub (JS.ofNat (length (props.data p))) (JS.ofZ 1))
    (JS.ceil
       (JS.div
          (JS.add (JS.add (scrollTop st) (containerHeight st))
             (JS.mul (buffer p) (props.itemHeight p)))
          (props.itemHeight p))).

Definition visibleData : list JS.value :=
  JS.slice (props.data p) startIndex (JS.add endIndex (JS.ofZ 1)).

Definition offsetY : JS.number := JS.mul startIndex (props.itemHeight p).

Definition totalHeight : JS.number :=
  JS.mul (JS.ofNat (length (props.data p))) (props.itemHeight p).

End Computed.

(** [handleScroll]: the scroll offset of the event target is stored as
    it is. *)
Definition handleScroll (targetScrollTop : JS.number) (st : State) : State :=
  {| scrollTop := targetScrollTop; containerHeight := containerHeight st |}.

(** What [updateContainerHeight] reads from the page: whether the
    container element is attached, the measured height of its parent (if
    it has one), and the host's [parseFloat]. *)
Record Env : Type := {
  containerRef : bool;
  parentClientHeight : option JS.number;
  parseFloat : string -> JS.number
}.

(** [s.includes("%")] *)
Fixpoint includesPercent (s : string) : bool :=
  match s with
  | EmptyString => false
  | String c rest =>
      if decide (c = "%"%char) then true else includesPercent rest
  end.

Definition updateContainerHeight (env : Env) (p : props.t) (st : State) : State :=
  if containerRef env then
    match props.height p with
    | props.HNum n => {| scrollTop := scrollTop st; containerHeight := n |}
    | props.HStr s =>
        if includesPercent s then
          let percentage := parseFloat env s in
          match parentClientHeight env with
          | Some clientHeight =>
              {| scrollTop := scrollTop st;
                 containerHeight :=
                   JS.div (JS.mul clientHeight percentage) (JS.ofZ 100) |}
          | None => st
          end
        else {| scrollTop := scrollTop st; containerHeight := parseFloat env s |}
    end
  else st.

(** [onMounted] *)
Definition onMounted (env : Env) (p : props.t) (st : State) : State :=
  updateContainerHeight env p st.

(** ** The template *)

(** One [.virtual-list-item]: its [:key] and the slot props. *)
Record Item : Type := {
  key : JS.value;
  item : JS.value;
  index : JS.number
}.

(** The body of the [v-for] for one [(item, index)] of [visibleData]. *)
Definition renderItem (p : props.t) (st : State) (i : nat) (it : JS.value)
  : JS.completion Item :=
  JS.bind (JS.get it (keyField p)) (fun k =>
    JS.Normal
      {| key := JS.or k (JS.VNum (JS.ofNat i));
         item := it;
         index := JS.add (startIndex p st) (JS.ofNat i) |}).

(** The [v-for] over a list, counting the loop index up from [i]. *)
Fixpoint renderList (p : props.t) (st : State) (i : nat) (l : list JS.value)
  : JS.completion (list Item) :=
  match l with
  | [] => JS.Normal []
  | it :: rest =>
      JS.bind (renderItem p st i it) (fun x =>
        JS.bind (renderList p st (S i) rest) (fun xs => JS.Normal (x :: xs)))
  end.

(** What one render pass hands to the page: the spacer height, the
    translation of the content block and the rendered items. *)
Record View : Type := {
  wrapperHeight : JS.number;
  translateY : JS.number;
  items : list Item
}.

Definition render (p : props.t) (st : State) : JS.completion View :=
  JS.bind (renderList p st 0 (visibleData p st)) (fun xs =>
    JS.Normal
      {| wrapperHeight := totalHeight p;
         translateY := offsetY p st;
         items := xs |}).

(** The render pass of the mount itself, on the state of the setup
    block, and the one that follows [onMounted]. *)
Definition firstRender (p : props.t) : JS.completion View :=
  render p (setup p).

Definition mountAndRender (env : Env) (p : props.t) : JS.completion View :=
  render p (onMounted env p (setup p)).

(** ** Definitions used by the statements *)

(** [Math.max(0, y)] on a finite [y]. *)
Definition clamp0 (y : Qc) : Qc :=
  if decide (Qc_of_Z 0 < y)%Qc then y else Qc_of_Z 0.

(** The two indices as integers, for a scroll offset [s], a container
    height [H], an effective buffer [b] and an item height [h]. *)
Definition startZ (s b h : Qc) : Z :=
  Qfloor (clamp0 (s - b * h) / h)%Qc.

Definition endZ (L : nat) (s H b h : Qc) : Z :=
  Z.min (Z.of_nat L - 1) (Qceiling ((s + H + b * h) / h)%Qc).

(** Items whose properties can be read. *)
Definition readable (v : JS.value) : Prop :=
  v ≠ JS.VUndefined ∧ v ≠ JS.VNull.

(** The props with another [buffer]. *)
Definition withBuffer (b : option JS.number) (p : props.t) : props.t :=
  {| props.data := props.data p;
     props.height := props.height p;
     props.itemHeight := props.itemHeight p;
     props.keyField := props.keyField p;
     props.buffer := b |}.

(** ** Sample inputs *)

(** A record whose only field is [id]. *)
Definition withId (id : Z) : JS.value :=
  JS.VObj {[ "id"%string := JS.VNum (JS.ofZ id) ]}.

(** The configuration of the demo page: a pixel height of 600, items of
    a given height, the key field [id] and a given buffer prop. *)
Definition demoProps (data : list JS.value) (itemHeight : Z)
    (buffer : option Z) : props.t :=
  {| props.data := data;
     props.height := props.HNum (JS.ofZ 600);
     props.itemHeight := JS.ofZ itemHeight;
     props.keyField := Some "id"%string;
     props.buffer := JS.ofZ <$> buffer |}.

Definition stateAt (scroll height : Z) : State :=
  {| scrollTop := JS.ofZ scroll; containerHeight := JS.ofZ height |}.

(** A page on which the container is attached below a parent 800 high;
    the demo passes its height as a number, so [parseFloat] is not
    called. *)
Definition demoEnv : Env :=
  {| containerRef := true;
     parentClientHeight := Some (JS.ofZ 800);
     parseFloat := λ _, JS.NaN |}.

(** Two hundred items of height 60 with a buffer of 3. *)
Definition sampleList : props.t :=
  demoProps (replicate 200 (withId 1)) 60 (Some 3).

(** Twenty records with the default buffer. *)
Definition shortList : props.t :=
  demoProps (replicate 20 (withId 1)) 60 None.

(** Four records, the third with the id 0 and the fourth with no id,
    read one item below the top. *)
Definition keyedList : props.t :=
  demoProps [withId 5; withId 6; withId 0; JS.VObj ∅] 60 (Some 3).

(** What a list of one record renders to at scroll offset 0. *)
Definition sampleView : View :=
  {| wrapperHeight := totalHeight (demoProps [withId 1] 60 (Some 3));
     translateY := offsetY (demoProps [withId 1] 60 (Some 3)) (stateAt 0 600);
     items :=
       [ {| key := JS.VNum (JS.ofZ 1);
            item := withId 1;
            index :=
              JS.add
                (startIndex (demoProps [withId 1] 60 (Some 3)) (stateAt 0 600))
                (JS.ofNat 0) |} ] |}.

(** What [keyedList] renders to at scroll offset 240, and the element
    for the record with the id 0. *)
Definition keyedItem : Item :=
  {| key := JS.VNum (JS.ofNat 1);
     item := withId 0;
     index := JS.add (startIndex keyedList (stateAt 240 600)) (JS.ofNat 1) |}.

Definition keyedView : View :=
  {| wrapperHeight := totalHeight keyedList;
     translateY := offsetY keyedList (stateAt 240 600);
     items :=
       [ {| key := JS.VNum (JS.ofZ 6); item := withId 6;
            index := JS.add (startIndex keyedList (stateAt 240 600)) (JS.ofNat 0) |};
         keyedItem;
         {| key := JS.VNum (JS.ofNat 2); item := JS.VObj ∅;
            index := JS.add (startIndex keyedList (stateAt 240 600)) (JS.ofNat 2) |}
       ] |}.

(** [item[keyField]], or [undefined] for an item that cannot be read. *)
Definition fieldOf (k : string) (v : JS.value) : JS.value :=
  match JS.get v k with
  | JS.Normal x => x
  | JS.Throw _ => JS.VUndefined
  end.

(** Two records behind a percentage height, on a page whose container
    has no parent to measure. *)
Definition percentProps : props.t :=
  {| props.data := [withId 1; withId 2];
     props.height := props.HStr "50%";
     props.itemHeight := JS.ofZ 60;
     props.keyField := None;
     props.buffer := Some (JS.ofZ 3) |}.

Definition orphanEnv : Env :=
  {| containerRef := true;
     parentClientHeight := None;
     parseFloat := λ _, JS.ofZ 50 |}.

(** ** The demo page (VirtualListDemo.vue) *)

(** [generateData(count)] for a whole number [count]: the records
    [{ id, title, description, timestamp }] for [i = 1 .. count].
    [clock i] is the [Date] created in iteration [i]; the template
    literals print [i] in decimal. *)
Definition generateData (clock : Z → JS.value) (count : Z) : list JS.value :=
  (λ i : Z,
     JS.VObj
       {[ "id"%string := JS.VNum (JS.ofZ i);
          "title"%string := JS.VStr ("列表项 " +:+ pretty i);
          "description"%string :=
            JS.VStr ("这是第 " +:+ pretty i
                     +:+ " 个列表项的详细描述信息，用于虚拟列表演示");
          "timestamp"%string := clock i ]})
  <$> seqZ 1 count.

(** The props the page passes to the list:
    [:data="listData" height="600px" :itemHeight="itemHeight"
     keyField="id" :buffer="3"]. *)
Definition pageProps (listData : list JS.value) (itemHeight : JS.number)
  : props.t :=
  {| props.data := listData;
     props.height := props.HStr "600px";
     props.itemHeight := itemHeight;
     props.keyField := Some "id"%string;
     props.buffer := Some (JS.ofZ 3) |}.

(** ** The theme manager (themeManager.ts) *)

Module ThemeManager.

Section Manager.

(** What the registered handlers act on. *)
Context {W : Type}.

(** A handler: a function with an identity ([!==] compares functions by
    identity).  [call h theme isDark w] is the state the handler leaves,
    also when it throws: [notifyThemeChangeHandlers] catches the
    exception and goes on.  Handlers do not call back into the manager. *)
Record handler : Type := {
  hid : nat;
  call : string → bool → W → W
}.

(** What the manager reads and writes on the page: the [theme] item of
    [localStorage], the [dark] class of the document element, and what
    [matchMedia('(prefers-color-scheme: dark)').matches] answers. *)
Record Page : Type := {
  storedTheme : option string;
  darkClass : bool;
  prefersDark : bool;
  app : W
}.

(** The fields of the class; the listener installed by
    [setupSystemThemeListener] is [handleSystemThemeChange] below. *)
Record t : Type := {
  currentTheme : string;
  themeChangeHandlers : list handler
}.

Definition setApp (w : W) (pg : Page) : Page :=
  {| storedTheme := storedTheme pg; darkClass := darkClass pg;
     prefersDark := prefersDark pg; app := w |}.

Definition setDarkClass (b : bool) (pg : Page) : Page :=
  {| storedTheme := storedTheme pg; darkClass := b;
     prefersDark := prefersDark pg; app := app pg |}.

Definition setStoredTheme (s : string) (pg : Page) : Page :=
  {| storedTheme := Some s; darkClass := darkClass pg;
     prefersDark := prefersDark pg; app := app pg |}.

Definition setPrefersDark (b : bool) (pg : Page) : Page :=
  {| storedTheme := storedTheme pg; darkClass := darkClass pg;
     prefersDark := b; app := app pg |}.

Definition themes : list string := ["light"; "dark"; "system"]%string.

(** [['light', 'dark', 'system'].includes(theme)] *)
Definition isValidTheme (theme : string) : bool :=
  bool_decide (theme ∈ themes).

Definition getTheme (m : t) : string := currentTheme m.

Definition isDarkMode (m : t) (pg : Page) : bool :=
  if decide (currentTheme m = "dark"%string) then true
  else if decide (currentTheme m = "light"%string) then false
  else prefersDark pg.

(** [forEach] over the handlers, in the order of the array. *)
Definition notifyThemeChangeHandlers (isDark : bool) (m : t) (pg : Page)
  : Page :=
  foldl (λ pg h, setApp (call h (currentTheme m) isDark (app pg)) pg)
    pg (themeChangeHandlers m).

Definition applyTheme (m : t) (pg : Page) : Page :=
  let isDark := isDarkMode m pg in
  notifyThemeChangeHandlers isDark m (setDarkClass isDark pg).

Definition setTheme (theme : string) (mp : t * Page) : t * Page :=
  let '(m, pg) := mp in
  if negb (isValidTheme theme) then (m, pg)
  else
    let m' := {| currentTheme := theme;
                 themeChangeHandlers := themeChangeHandlers m |} in
    (m', applyTheme m' (setStoredTheme theme pg)).

(** The constructor: the field initialisers, then [initTheme]. *)
Definition initTheme (pg : Page) : t * Page :=
  let m0 := {| currentTheme := "system"; themeChangeHandlers := [] |} in
  let m :=
    match storedTheme pg with
    | Some savedTheme =>
        if JS.truthy (JS.VStr savedTheme) && isValidTheme savedTheme
        then {| currentTheme := savedTheme; themeChangeHandlers := [] |}
        else m0
    | None => m0
    end in
  (m, applyTheme m pg).

(** The [change] listener of the media query. *)
Definition handleSystemThemeChange (mp : t * Page) : t * Page :=
  let '(m, pg) := mp in
  if decide (currentTheme m = "system"%string) then (m, applyTheme m pg)
  else (m, pg).

(** The system preference becomes [matches] and the listener runs. *)
Definition systemThemeChanged (matches : bool) (mp : t * Page) : t * Page :=
  let '(m, pg) := mp in
  handleSystemThemeChange (m, setPrefersDark matches pg).

(** [onThemeChange(handler)], and the function it returns. *)
Definition onThemeChange (h : handler) (m : t) : t :=
  {| currentTheme := currentTheme m;
     themeChangeHandlers := themeChangeHandlers m ++ [h] |}.

Definition unsubscribe (h : handler) (m : t) : t :=
  {| currentTheme := currentTheme m;
     themeChangeHandlers :=
       filter (λ x, hid x ≠ hid h) (themeChangeHandlers m) |}.

(** [arr.indexOf(x)]: the first position of [x], or [-1]. *)
Fixpoint indexOf (arr : list string) (x : string) : Z :=
  match arr with
  | [] => -1
  | y :: rest =>
      if decide (y = x) then 0
      else let i := indexOf rest x in if decide (i < 0) then -1 else i + 1
  end.

Definition cycleTheme (mp : t * Page) : t * Page :=
  let currentIndex := indexOf themes (currentTheme (fst mp)) in
  let nextIndex := (currentIndex + 1) `mod` Z.of_nat (length themes) in
  match themes !! Z.to_nat nextIndex with
  | Some theme => setTheme theme mp
  | None => mp
  end.

(** The calls a page makes on the manager after it was constructed. *)
Inductive event : Type :=
  | SetTheme (theme : string)
  | CycleTheme
  | SystemThemeChanged (matches : bool)
  | OnThemeChange (h : handler)
  | Unsubscribe (h : handler).

Definition step (mp : t * Page) (ev : event) : t * Page :=
  match ev with
  | SetTheme theme => setTheme theme mp
  | CycleTheme => cycleTheme mp
  | SystemThemeChanged matches => systemThemeChanged matches mp
  | OnThemeChange h => (onThemeChange h (fst mp), snd mp)
  | Unsubscribe h => (unsubscribe h (fst mp), snd mp)
  end.

Definition run (evs : list event) (mp : t * Page) : t * Page :=
  foldl step mp evs.

(** The theme the constructor starts from: the stored one when it is
    valid, [system] otherwise. *)
Definition savedOrSystem (saved : option string) : string :=
  match saved with
  | Some s => if isValidTheme s then s else "system"
  | None => "system"
  end.

(** What every state reached from the constructor satisfies: the theme
    is valid, the [dark] class follows [isDarkMode], and the stored
    theme leads the constructor back to the current theme. *)
Definition consistent (mp : t * Page) : Prop :=
  isValidTheme (currentTheme (fst mp)) = true ∧
  darkClass (snd mp) = isDarkMode (fst mp) (snd mp) ∧
  savedOrSystem (storedTheme (snd mp)) = currentTheme (fst mp).

(** The events that are calls of [setTheme] or [cycleTheme] or changes
    of the system preference. *)
Definition keepsHandlers (ev : event) : bool :=
  match ev with
  | OnThemeChange _ | Unsubscribe _ => false
  | _ => true
  end.

End Manager.

Arguments handler : clear implicits.
Arguments Page : clear implicits.
Arguments t : clear implicits.
Arguments event : clear implicits.

(** main.ts: [$theme] is set from [isDarkMode()] once, and a handler
    keeps it up to date; [W] is the value of [$theme]. *)
Definition mainHandler : handler string :=
  {| hid := 0;
     call := λ _theme isDark _, if isDark then "dark" else "light" |}%string.

Definition main (pg : Page string) : t string * Page string :=
  let '(m, pg) := initTheme pg in
  let pg := setApp (if isDarkMode m pg then "dark" else "light")%string pg in
  (onThemeChange mainHandler m, pg).

End ThemeManager.

(** ** Facts about canonical rationals *)

Section QcFacts.

Local Open Scope Qc_scope.

Lemma this_plus (x y : Qc) : (this (x + y) == this x + this y)%Q.
Proof. apply Qred_correct. Qed.

Lemma this_mult (x y : Qc) : (this (x * y) == this x * this y)%Q.
Proof. apply Qred_correct. Qed.

Lemma this_opp (x : Qc) : (this (- x) == - this x)%Q.
Proof. apply Qred_correct. Qed.

Lemma this_Q2Qc (q : Q) : (this (Q2Qc q) == q)%Q.
Proof. apply Qred_correct. Qed.

Lemma this_ofZ (z : Z) : this (Qc_of_Z z) = inject_Z z.
Proof. reflexivity. Qed.

End QcFacts.

(** Linear arithmetic over [Qc]: move to [Q] and call [lra]. *)
Ltac qc_to_q :=
  unfold Qcle, Qclt, Qcminus in *;
  repeat match goal with
  | H : context [this (_ + _)%Qc] |- _ => rewrite this_plus in H
  | H : context [this (_ * _)%Qc] |- _ => rewrite this_mult in H
  | H : context [this (- _)%Qc] |- _ => rewrite this_opp in H
  | H : context [this (Qc_of_Z _)] |- _ => rewrite this_ofZ in H
  | H : context [this (Q2Qc _)] |- _ => rewrite this_Q2Qc in H
  | |- context [this (_ + _)%Qc] => rewrite this_plus
  | |- context [this (_ * _)%Qc] => rewrite this_mult
  | |- context [this (- _)%Qc] => rewrite this_opp
  | |- context [this (Qc_of_Z _)] => rewrite this_ofZ
  | |- context [this (Q2Qc _)] => rewrite this_Q2Qc
  end;
  change (inject_Z 0) with 0%Q in *;
  change (inject_Z 1) with 1%Q in *.

Ltac qc_lra := qc_to_q; lra.

Section Rounding.

Local Open Scope Qc_scope.

Lemma floor_le (x : Qc) : Qc_of_Z (Qfloor x) ≤ x.
Proof. apply Qfloor_le. Qed.

Lemma lt_floor (x : Qc) : x < Qc_of_Z (Qfloor x) + 1.
Proof.
  pose proof (Qlt_floor x) as H. rewrite inject_Z_plus in H. qc_lra.
Qed.

Lemma le_ceiling (x : Qc) : x ≤ Qc_of_Z (Qceiling x).
Proof. apply Qle_ceiling. Qed.

Lemma ceiling_lt (x : Qc) : Qc_of_Z (Qceiling x) - 1 < x.
Proof.
  pose proof (Qceiling_lt x) as H. unfold Z.sub in H.
  rewrite inject_Z_plus, inject_Z_opp in H. qc_lra.
Qed.

(** Integers are compared as their images in [Qc]. *)
Lemma Z_le_Qc (a b : Z) : Qc_of_Z a < Qc_of_Z b + 1 → (a ≤ b)%Z.
Proof.
  intros H. rewrite <- Z2Qc_inj_1, <- Z2Qc_inj_add in H.
  apply Z2Qc_inj_lt in H. lia.
Qed.

Lemma floor_ofZ (z : Z) : Qfloor (Qc_of_Z z) = z.
Proof. apply Qfloor_Z. Qed.

Lemma ceiling_ofZ (z : Z) : Qceiling (Qc_of_Z z) = z.
Proof. apply Qceiling_Z. Qed.

Lemma floor_mono (x y : Qc) : x ≤ y → (Qfloor x ≤ Qfloor y)%Z.
Proof. apply Qfloor_resp_le. Qed.

Lemma ceiling_mono (x y : Qc) : x ≤ y → (Qceiling x ≤ Qceiling y)%Z.
Proof. apply Qceiling_resp_le. Qed.

(** Dividing by a positive number keeps the order. *)
Lemma div_le_mono (x y h : Qc) : 0 < h → x ≤ y → x / h ≤ y / h.
Proof.
  intros Hh Hxy. unfold Qcdiv.
  apply Qcmult_le_mono_nonneg_r; [|done].
  apply Qclt_le_weak, Qcinv_pos, Hh.
Qed.

Lemma div_lt_mono (x y h : Qc) : 0 < h → x < y → x / h < y / h.
Proof.
  intros Hh Hxy. unfold Qcdiv.
  apply Qcmult_lt_mono_pos_r; [|done]. apply Qcinv_pos, Hh.
Qed.

Lemma div_mul_cancel (b h : Qc) : 0 < h → b * h / h = b.
Proof. intros Hh. apply Qcdiv_mult_l. intros ->. by apply Qclt_not_eq in Hh. Qed.

Lemma div_plus (x y h : Qc) : (x + y) / h = x / h + y / h.
Proof. unfold Qcdiv. apply Qcmult_plus_distr_l. Qed.

Lemma div_opp (x h : Qc) : (- x) / h = - (x / h).
Proof. unfold Qcdiv. ring. Qed.

Lemma zero_div (h : Qc) : 0 / h = 0.
Proof. unfold Qcdiv. apply Qcmult_0_l. Qed.

End Rounding.

(** ** The window on finite inputs *)

Section Finite.

Local Open Scope Qc_scope.

Variable p : props.t.
Variable st : State.
Variables s H b h : Qc.
Hypothesis Hs : scrollTop st = JS.Fin s.
Hypothesis HH : containerHeight st = JS.Fin H.
Hypothesis Hb : buffer p = JS.Fin b.
Hypothesis Hh : props.itemHeight p = JS.Fin h.
Hypothesis Hpos : 0 < h.

Lemma pos_compare : (h ?= 0) = Gt.
Proof. by apply Qcgt_alt. Qed.

Lemma div_finite (x : Qc) : JS.div (JS.Fin x) (JS.Fin h) = JS.Fin (x / h).
Proof. unfold JS.div. by rewrite pos_compare. Qed.

Lemma startIndex_finite : startIndex p st = JS.ofZ (startZ s b h).
Proof.
  unfold startIndex, startZ, clamp0. rewrite Hs, Hb, Hh.
  unfold JS.ofZ. cbn [JS.sub JS.mul JS.neg JS.add JS.max].
  unfold Qcminus. case_decide; rewrite div_finite; reflexivity.
Qed.

Lemma endIndex_finite :
  endIndex p st = JS.ofZ (endZ (length (props.data p)) s H b h).
Proof.
  unfold endIndex, endZ. rewrite Hs, HH, Hb, Hh.
  unfold JS.ofNat, JS.ofZ. cbn [JS.sub JS.mul JS.neg JS.add].
  rewrite div_finite. unfold JS.ceil, JS.ofZ, JS.min.
  rewrite <- Z2Qc_inj_opp, <- Z2Qc_inj_add.
  case_decide as Hlt; apply Z2Qc_inj_lt in Hlt || rewrite <- Z2Qc_inj_lt in Hlt;
    f_equal; f_equal; lia.
Qed.

End Finite.

(** ** Arithmetic of the window *)

Section WindowArithmetic.

Local Open Scope Qc_scope.

Variables s H b h : Qc.
Hypothesis Hpos : 0 < h.

Lemma clamp0_nonneg (y : Qc) : 0 ≤ clamp0 y.
Proof.
  unfold clamp0. case_decide as Hy.
  - rewrite Z2Qc_inj_0 in Hy. by apply Qclt_le_weak.
  - by rewrite Z2Qc_inj_0.
Qed.

Lemma clamp0_ge (y : Qc) : y ≤ clamp0 y.
Proof.
  unfold clamp0. case_decide as Hy; [done|].
  apply Qcnot_lt_le in Hy. done.
Qed.

Lemma clamp0_cases (y : Qc) : (0 < y ∧ clamp0 y = y) ∨ (y ≤ 0 ∧ clamp0 y = 0).
Proof.
  unfold clamp0. rewrite Z2Qc_inj_0. case_decide as Hy; [by left|].
  right. split; [by apply Qcnot_lt_le|done].
Qed.

(** The quotients the two indices round. *)
Lemma start_quotient : (s - b * h) / h = s / h - b.
Proof.
  unfold Qcminus. by rewrite div_plus, div_opp, div_mul_cancel.
Qed.

Lemma end_quotient : (s + H + b * h) / h = s / h + H / h + b.
Proof. by rewrite !div_plus, div_mul_cancel. Qed.

Lemma startZ_nonneg : (0 ≤ startZ s b h)%Z.
Proof.
  unfold startZ. rewrite <- (floor_ofZ 0). apply floor_mono.
  rewrite Z2Qc_inj_0, <- (zero_div h).
  apply div_le_mono; [done|apply clamp0_nonneg].
Qed.

Lemma startZ_lower : s / h - b < Qc_of_Z (startZ s b h) + 1.
Proof.
  unfold startZ. eapply Qcle_lt_trans; [|apply lt_floor].
  rewrite <- start_quotient. apply div_le_mono; [done|apply clamp0_ge].
Qed.

Lemma endZ_le_last (L : nat) : (endZ L s H b h ≤ Z.of_nat L - 1)%Z.
Proof. unfold endZ. lia. Qed.

Lemma endZ_le_ceiling (L : nat) :
  (endZ L s H b h ≤ Qceiling (s / h + H / h + b)%Qc)%Z.
Proof. unfold endZ. rewrite end_quotient. lia. Qed.

(** The window never holds more than [ceil(H/h) + 2b + 2] items, for an
    integer buffer [b], whatever the length of the dataset. *)
Lemma window_size (L : nat) (B : Z) :
  b = Qc_of_Z B →
  (endZ L s H b h - startZ s b h + 1 ≤ Qceiling (H / h)%Qc + 2 * B + 2)%Z.
Proof.
  intros HB.
  pose proof (endZ_le_ceiling L) as He.
  pose proof startZ_lower as Ha.
  pose proof (ceiling_lt (s / h + H / h + b)) as Hc.
  pose proof (le_ceiling (H / h)) as Hv.
  set (a := startZ s b h) in *.
  set (c := Qceiling (s / h + H / h + b)%Qc) in *.
  set (v := Qceiling (H / h)%Qc) in *.
  cut (c - a ≤ v + 2 * B + 1)%Z; [lia|].
  apply Z_le_Qc.
  rewrite Z2Qc_inj_sub, !Z2Qc_inj_add, Z2Qc_inj_mul, Z2Qc_inj_2, Z2Qc_inj_1.
  rewrite <- HB. clearbody a c v.
  generalize dependent (s / h). generalize dependent (H / h).
  intros x Hv y Ha Hc. qc_lra.
Qed.

(** The end index grows with the container height. *)
Lemma endZ_mono (L : nat) (H' : Qc) :
  H' ≤ H → (endZ L s H' b h ≤ endZ L s H b h)%Z.
Proof.
  intros Hle. unfold endZ. apply Z.min_le_compat_l, ceiling_mono.
  apply div_le_mono; [done|].
  by apply Qcplus_le_mono_r, Qcplus_le_mono_l.
Qed.

Section NonNegative.

Hypothesis Hs0 : 0 ≤ s.
Hypothesis HH0 : 0 ≤ H.
Hypothesis Hb0 : 0 ≤ b.

Lemma buffer_px_nonneg : 0 ≤ b * h.
Proof. apply Qcmult_nonneg_nonneg; [done|by apply Qclt_le_weak]. Qed.

Lemma end_px_nonneg : 0 ≤ s + H + b * h.
Proof.
  pose proof buffer_px_nonneg.
  by repeat apply Qcplus_nonneg_nonneg.
Qed.

Lemma clamp0_le_end_px : clamp0 (s - b * h) ≤ s + H + b * h.
Proof.
  pose proof buffer_px_nonneg as Hbh. pose proof end_px_nonneg as He.
  destruct (clamp0_cases (s - b * h)) as [[_ ->]|[_ ->]]; [|done].
  generalize dependent (b * h). intros x Hx _. qc_lra.
Qed.

Lemma startZ_le_ceiling :
  (startZ s b h ≤ Qceiling ((s + H + b * h) / h)%Qc)%Z.
Proof.
  unfold startZ. apply (proj2 (Z2Qc_inj_le _ _)).
  eapply Qcle_trans; [apply floor_le|].
  eapply Qcle_trans; [|apply le_ceiling].
  apply div_le_mono; [done|apply clamp0_le_end_px].
Qed.

Lemma endZ_nonneg (L : nat) : (1 ≤ L)%nat → (0 ≤ endZ L s H b h)%Z.
Proof.
  intros HL. unfold endZ. apply Z.min_glb; [lia|].
  rewrite <- (ceiling_ofZ 0). apply ceiling_mono.
  rewrite Z2Qc_inj_0, <- (zero_div h).
  apply div_le_mono; [done|apply end_px_nonneg].
Qed.

Lemma endZ_ge_minus_one (L : nat) : (-1 ≤ endZ L s H b h)%Z.
Proof.
  unfold endZ. apply Z.min_glb; [lia|].
  transitivity 0%Z; [lia|].
  rewrite <- (ceiling_ofZ 0). apply ceiling_mono.
  rewrite Z2Qc_inj_0, <- (zero_div h).
  apply div_le_mono; [done|apply end_px_nonneg].
Qed.

(** The window is well ordered exactly when the buffered scroll offset
    lies inside the spacer. *)
Lemma startZ_le_endZ_iff (L : nat) :
  (1 ≤ L)%nat →
  (startZ s b h ≤ endZ L s H b h)%Z ↔ s - b * h < Qc_of_Z (Z.of_nat L) * h.
Proof.
  intros HL. split.
  - intros Hle. pose proof (endZ_le_last L) as Hlast.
    assert (Qc_of_Z (startZ s b h) + 1 ≤ Qc_of_Z (Z.of_nat L)) as Hint.
    { rewrite <- Z2Qc_inj_1, <- Z2Qc_inj_add. apply (proj1 (Z2Qc_inj_le _ _)). lia. }
    pose proof startZ_lower as Hlow. rewrite <- start_quotient in Hlow.
    assert ((s - b * h) / h < Qc_of_Z (Z.of_nat L)) as Hq.
    { eapply Qclt_le_trans; [apply Hlow|apply Hint]. }
    apply (Qcmult_lt_mono_pos_r _ _ h) in Hq; [|done].
    rewrite (Qcmult_comm _ h), Qcmult_div_r in Hq; [done|].
    intros ->. by apply Qclt_not_eq in Hpos.
  - intros Hlt. unfold endZ. apply Z.min_glb; [|apply startZ_le_ceiling].
    cut (startZ s b h < Z.of_nat L)%Z; [lia|].
    apply (proj2 (Z2Qc_inj_lt _ _)). eapply Qcle_lt_trans; [apply floor_le|].
    rewrite <- (div_mul_cancel (Qc_of_Z (Z.of_nat L)) h) by done.
    apply div_lt_mono; [done|].
    destruct (clamp0_cases (s - b * h)) as [[_ ->]|[_ ->]]; [done|].
    apply Qcmult_pos_pos; [|done].
    rewrite <- Z2Qc_inj_0. apply (proj1 (Z2Qc_inj_lt _ _)). lia.
Qed.

End NonNegative.

End WindowArithmetic.

(** ** Slicing at integer indices *)

Section Slice.

Lemma add_ofZ (a b : Z) : JS.add (JS.ofZ a) (JS.ofZ b) = JS.ofZ (a + b).
Proof. unfold JS.ofZ. cbn [JS.add]. by rewrite Z2Qc_inj_add. Qed.

Lemma ofZ_inj (a b : Z) : JS.ofZ a = JS.ofZ b → a = b.
Proof. unfold JS.ofZ. intros [= Hab]. done. Qed.

Lemma trunc_ofZ (z : Z) : JS.trunc (Qc_of_Z z) = z.
Proof.
  unfold JS.trunc. case_decide; [apply ceiling_ofZ|apply floor_ofZ].
Qed.

Lemma relativeIndex_nonneg (len : nat) (z : Z) :
  0 ≤ z → JS.relativeIndex len (JS.ofZ z) = Z.to_nat (Z.min z (Z.of_nat len)).
Proof.
  intros Hz. unfold JS.relativeIndex, JS.ofZ. rewrite trunc_ofZ.
  case_decide; [lia|done].
Qed.

Lemma relativeIndex_le (len : nat) (a : JS.number) :
  (JS.relativeIndex len a ≤ len)%nat.
Proof.
  unfold JS.relativeIndex. destruct a; try lia.
  case_decide; lia.
Qed.

Context {A : Type}.
Implicit Types arr : list A.

(** An element of the slice is the element of the array at the same
    distance from a non-negative start index. *)
Lemma slice_lookup arr (a : Z) (end_ : JS.number) (i : nat) (x : A) :
  0 ≤ a →
  JS.slice arr (JS.ofZ a) end_ !! i = Some x →
  arr !! (Z.to_nat a + i)%nat = Some x.
Proof.
  intros Ha. unfold JS.slice. rewrite relativeIndex_nonneg by done.
  intros Hx. apply lookup_take_Some in Hx as [Hx _].
  rewrite lookup_drop in Hx.
  pose proof (lookup_lt_Some _ _ _ Hx) as Hlt.
  replace (Z.to_nat a) with (Z.to_nat (Z.min a (Z.of_nat (length arr))));
    [done|lia].
Qed.

(** Between non-negative bounds the slice has [min(e, len) - min(a, len)]
    elements. *)
Lemma slice_length arr (a e : Z) :
  0 ≤ a → 0 ≤ e →
  length (JS.slice arr (JS.ofZ a) (JS.ofZ e)) =
  Z.to_nat (Z.min e (Z.of_nat (length arr)) - Z.min a (Z.of_nat (length arr))).
Proof.
  intros Ha He. unfold JS.slice. rewrite !relativeIndex_nonneg by done.
  rewrite length_take, length_drop. lia.
Qed.

Lemma slice_empty arr (a e : Z) :
  0 ≤ a → 0 ≤ e → e ≤ a ∨ Z.of_nat (length arr) ≤ a →
  JS.slice arr (JS.ofZ a) (JS.ofZ e) = [].
Proof.
  intros Ha He Hor. apply length_zero_iff_nil.
  rewrite slice_length by done. lia.
Qed.

Lemma slice_nil (start end_ : JS.number) : JS.slice (@nil A) start end_ = [].
Proof. unfold JS.slice. by rewrite drop_nil, take_nil. Qed.

End Slice.

(** ** The rendered list *)

Section Render.

Variable p : props.t.
Variable st : State.

Lemma get_readable (v : JS.value) (k : string) :
  readable v → ∃ x, JS.get v k = JS.Normal x.
Proof.
  intros [Hu Hn]. destruct v; simpl; eauto; congruence.
Qed.

Lemma renderItem_readable (i : nat) (v : JS.value) :
  readable v → ∃ x, renderItem p st i v = JS.Normal x.
Proof.
  intros Hv. destruct (get_readable v (keyField p) Hv) as [k Hk].
  unfold renderItem. rewrite Hk. simpl. eauto.
Qed.

(** The loop completes when every item of its list is readable, and then
    renders one element per item. *)
Lemma renderList_total (l : list JS.value) :
  Forall readable l →
  ∀ i, ∃ xs, renderList p st i l = JS.Normal xs ∧ length xs = length l.
Proof.
  induction 1 as [|v l Hv _ IH]; intros i; simpl.
  - by exists [].
  - destruct (renderItem_readable i v Hv) as [x ->].
    destruct (IH (S i)) as (xs & -> & Hlen). simpl.
    exists (x :: xs). simpl. by rewrite Hlen.
Qed.

(** What the loop produces at position [j]: the item of the list at [j],
    the slot index [startIndex + (i + j)], and the key. *)
Lemma renderList_lookup (l : list JS.value) :
  ∀ i xs j x,
    renderList p st i l = JS.Normal xs →
    xs !! j = Some x →
    l !! j = Some (item x) ∧
    index x = JS.add (startIndex p st) (JS.ofNat (i + j)) ∧
    ∃ k, JS.get (item x) (keyField p) = JS.Normal k ∧
         key x = JS.or k (JS.VNum (JS.ofNat (i + j))).
Proof.
  induction l as [|v l IH]; intros i xs j x; simpl.
  - intros [= <-]. by rewrite lookup_nil.
  - unfold renderItem at 1.
    destruct (JS.get v (keyField p)) as [k|] eqn:Hk; simpl; [|done].
    destruct (renderList p st (S i) l) as [ys|] eqn:Hys; simpl; [|done].
    intros [= <-]. destruct j as [|j]; simpl.
    + intros [= <-]. simpl. rewrite Nat.add_0_r. eauto.
    + intros Hx. replace (i + S j)%nat with (S i + j)%nat by lia.
      by apply (IH (S i) ys).
Qed.

Lemma visibleData_readable :
  Forall readable (props.data p) → Forall readable (visibleData p st).
Proof.
  intros Hall. unfold visibleData, JS.slice.
  by apply Forall_take, Forall_drop.
Qed.

(** A render pass over a dataset of readable items completes. *)
Lemma render_total :
  Forall readable (props.data p) →
  ∃ v, render p st = JS.Normal v ∧
       length (items v) = length (visibleData p st).
Proof.
  intros Hall.
  destruct (renderList_total _ (visibleData_readable Hall) 0%nat)
    as (xs & Hxs & Hlen).
  unfold render. rewrite Hxs. simpl. eauto.
Qed.

Lemma render_items (v : View) :
  render p st = JS.Normal v →
  renderList p st 0 (visibleData p st) = JS.Normal (items v).
Proof.
  unfold render.
  destruct (renderList p st 0 (visibleData p st)) as [xs|]; simpl; [|done].
  by intros [= <-].
Qed.

(** The element rendered at position [i]: its item is the one at [i] in
    the slice, its slot index is [startIndex + i], and its key is
    [item[keyField] || i]. *)
Lemma rendered_item (v : View) (i : nat) (x : Item) :
  render p st = JS.Normal v →
  items v !! i = Some x →
  visibleData p st !! i = Some (item x) ∧
  index x = JS.add (startIndex p st) (JS.ofNat i) ∧
  ∃ k, JS.get (item x) (keyField p) = JS.Normal k ∧
       key x = JS.or k (JS.VNum (JS.ofNat i)).
Proof.
  intros Hv Hx. apply render_items in Hv.
  destruct (renderList_lookup _ _ _ _ _ Hv Hx) as (Hit & Hidx & k & Hk & Hkey).
  simpl in Hidx, Hkey. eauto.
Qed.

End Render.

(** ** The sample configurations as integers *)

(** The indices of a demo configuration, as integers. *)
Lemma demo_startIndex data h b B s H :
  (0 < h)%Z → buffer (demoProps data h b) = JS.ofZ B →
  startIndex (demoProps data h b) (stateAt s H) =
  JS.ofZ (startZ (Qc_of_Z s) (Qc_of_Z B) (Qc_of_Z h)).
Proof.
  intros Hh HB.
  apply (startIndex_finite (demoProps data h b) (stateAt s H)
           (Qc_of_Z s) (Qc_of_Z B) (Qc_of_Z h)); try done.
  rewrite <- Z2Qc_inj_0. by apply (proj1 (Z2Qc_inj_lt _ _)).
Qed.

Lemma demo_endIndex data h b B s H :
  (0 < h)%Z → buffer (demoProps data h b) = JS.ofZ B →
  endIndex (demoProps data h b) (stateAt s H) =
  JS.ofZ (endZ (length data) (Qc_of_Z s) (Qc_of_Z H) (Qc_of_Z B) (Qc_of_Z h)).
Proof.
  intros Hh HB.
  apply (endIndex_finite (demoProps data h b) (stateAt s H)
           (Qc_of_Z s) (Qc_of_Z H) (Qc_of_Z B) (Qc_of_Z h)); try done.
  rewrite <- Z2Qc_inj_0. by apply (proj1 (Z2Qc_inj_lt _ _)).
Qed.

(** ** The window (claims C1, C2, C6, C8) *)

(** C1, as amended.  For a dataset of length [L >= 1], a scroll offset
    [s >= 0], a container height [H >= 0], an item height [h > 0] and an
    effective buffer [b >= 0], both indices are integers with
    [0 <= startIndex] and [0 <= endIndex <= L - 1].  [startIndex] has no
    upper clamp: [startIndex <= endIndex] holds whenever
    [s - b * h <= (L - 1) * h], and [startIndex > endIndex] whenever
    [s - b * h >= (L + 1) * h].  The row in between is left open: there
    the order depends on how the quotient is rounded. *)
Theorem window_bounds (p : props.t) (st : State) (s H b h : Qc) :
  scrollTop st = JS.Fin s →
  containerHeight st = JS.Fin H →
  buffer p = JS.Fin b →
  props.itemHeight p = JS.Fin h →
  (1 ≤ length (props.data p))%nat →
  (0 ≤ s)%Qc → (0 ≤ H)%Qc → (0 < h)%Qc → (0 ≤ b)%Qc →
  ∃ a e : Z,
    startIndex p st = JS.ofZ a ∧ endIndex p st = JS.ofZ e ∧
    0 ≤ a ∧ 0 ≤ e ∧ e ≤ Z.of_nat (length (props.data p)) - 1 ∧
    ((s - b * h ≤ Qc_of_Z (Z.of_nat (length (props.data p)) - 1) * h)%Qc →
     a ≤ e) ∧
    ((Qc_of_Z (Z.of_nat (length (props.data p)) + 1) * h ≤ s - b * h)%Qc →
     e < a).
Proof.
  intros Hs HH Hb Hh HL Hs0 HH0 Hpos Hb0.
  exists (startZ s b h), (endZ (length (props.data p)) s H b h).
  split; [by apply (startIndex_finite p st s b h)|].
  split; [by apply (endIndex_finite p st s H b h)|].
  split; [by apply startZ_nonneg|].
  split; [by apply endZ_nonneg|].
  split; [apply endZ_le_last|].
  pose proof (startZ_le_endZ_iff s H b h Hpos Hs0 HH0 Hb0 _ HL) as Hiff.
  set (Lh := (Qc_of_Z (Z.of_nat (length (props.data p))) * h)%Qc) in *.
  assert (Qc_of_Z (Z.of_nat (length (props.data p)) - 1) * h = Lh - h)%Qc
    as -> by (unfold Lh; rewrite Z2Qc_inj_sub, Z2Qc_inj_1; ring).
  assert (Qc_of_Z (Z.of_nat (length (props.data p)) + 1) * h = Lh + h)%Qc
    as -> by (unfold Lh; rewrite Z2Qc_inj_add, Z2Qc_inj_1; ring).
  clearbody Lh. split.
  - intros Hle. apply Hiff. clear -Hle Hpos.
    generalize dependent (b * h)%Qc. intros x Hle. qc_lra.
  - intros Hge.
    destruct (Z_lt_le_dec (endZ (length (props.data p)) s H b h)
                (startZ s b h)) as [|Hae]; [done|].
    apply Hiff in Hae. exfalso. clear -Hge Hae Hpos.
    generalize dependent (b * h)%Qc. intros x Hge Hae. qc_lra.
Qed.

Lemma window_bounds_witness :
  ∃ a e : Z,
    startIndex (demoProps [withId 1; withId 2] 60 (Some 3)) (stateAt 0 600)
      = JS.ofZ a ∧
    endIndex (demoProps [withId 1; withId 2] 60 (Some 3)) (stateAt 0 600)
      = JS.ofZ e ∧
    0 ≤ a ∧ 0 ≤ e ∧ e ≤ 2 - 1 ∧
    ((Qc_of_Z 0 - Qc_of_Z 3 * Qc_of_Z 60 ≤ Qc_of_Z (2 - 1) * Qc_of_Z 60)%Qc →
     a ≤ e) ∧
    ((Qc_of_Z (2 + 1) * Qc_of_Z 60 ≤ Qc_of_Z 0 - Qc_of_Z 3 * Qc_of_Z 60)%Qc →
     e < a).
Proof.
  apply (window_bounds (demoProps [withId 1; withId 2] 60 (Some 3))
           (stateAt 0 600) (Qc_of_Z 0) (Qc_of_Z 600) (Qc_of_Z 3) (Qc_of_Z 60));
    try reflexivity; try (simpl; lia); by vm_compute.
Defined.

(** C1 as stated fails: a dataset of one item read at a scroll offset of
    6000 gives [startIndex = 97] and [endIndex = 0]. *)
Lemma startIndex_not_clamped :
  ¬ ∃ a e : Z,
      startIndex (demoProps [withId 1] 60 (Some 3)) (stateAt 6000 600)
        = JS.ofZ a ∧
      endIndex (demoProps [withId 1] 60 (Some 3)) (stateAt 6000 600)
        = JS.ofZ e ∧
      0 ≤ a ∧ a ≤ e ∧ e ≤ 1 - 1.
Proof.
  intros (a & e & Ha & He & H0 & Hae & HeL).
  rewrite (demo_startIndex _ _ _ 3) in Ha by done.
  rewrite (demo_endIndex _ _ _ 3) in He by done.
  apply ofZ_inj in Ha, He.
  vm_compute in Ha. vm_compute in He. lia.
Qed.

Section VisibleData.

Local Open Scope Qc_scope.

Variable p : props.t.
Variable st : State.
Variables s H b h : Qc.
Hypothesis Hs : scrollTop st = JS.Fin s.
Hypothesis HH : containerHeight st = JS.Fin H.
Hypothesis Hb : buffer p = JS.Fin b.
Hypothesis Hh : props.itemHeight p = JS.Fin h.
Hypothesis Hpos : 0 < h.

Lemma visibleData_finite :
  visibleData p st =
  JS.slice (props.data p) (JS.ofZ (startZ s b h))
    (JS.ofZ (endZ (length (props.data p)) s H b h + 1)).
Proof.
  unfold visibleData.
  rewrite (startIndex_finite p st s b h), (endIndex_finite p st s H b h) by done.
  by rewrite add_ofZ.
Qed.

(** On non-negative geometry the slice is read between non-negative
    bounds, so its length is the clamped difference of the bounds. *)
Lemma visibleData_length :
  0 ≤ s → 0 ≤ H → 0 ≤ b →
  length (visibleData p st) =
  Z.to_nat
    (Z.min (endZ (length (props.data p)) s H b h + 1)
       (Z.of_nat (length (props.data p)))
     - Z.min (startZ s b h) (Z.of_nat (length (props.data p)))).
Proof.
  intros Hs0 HH0 Hb0. rewrite visibleData_finite.
  apply slice_length; [by apply startZ_nonneg|].
  pose proof (endZ_ge_minus_one s H b h Hpos Hs0 HH0 Hb0
                (length (props.data p))).
  lia.
Qed.

End VisibleData.

(** C2, as amended.  For an item height [h > 0] and an integer effective
    buffer [B] (the [buffer] prop, or 5 when the prop is absent or 0),
    the window holds at most [ceil(H / h) + 2 * B + 3] items, whatever
    the length of the dataset, and so does the rendered slice when scroll
    offset, container height and buffer are non-negative.  The bound
    leaves one item of margin over what the exact quotients give, so
    that it does not depend on how the two divisions are rounded. *)
Theorem window_size_bound (p : props.t) (st : State) (s H h : Qc) (B : Z) :
  scrollTop st = JS.Fin s →
  containerHeight st = JS.Fin H →
  buffer p = JS.ofZ B →
  props.itemHeight p = JS.Fin h →
  (0 < h)%Qc →
  ∃ a e : Z,
    startIndex p st = JS.ofZ a ∧ endIndex p st = JS.ofZ e ∧
    e - a + 1 ≤ Qceiling (H / h)%Qc + 2 * B + 3 ∧
    ((0 ≤ s)%Qc → (0 ≤ H)%Qc → 0 ≤ B →
     Z.of_nat (length (visibleData p st)) ≤ Qceiling (H / h)%Qc + 2 * B + 3).
Proof.
  intros Hs HH Hb Hh Hpos.
  exists (startZ s (Qc_of_Z B) h),
    (endZ (length (props.data p)) s H (Qc_of_Z B) h).
  split; [by apply (startIndex_finite p st s (Qc_of_Z B) h)|].
  split; [by apply (endIndex_finite p st s H (Qc_of_Z B) h)|].
  pose proof (window_size s H (Qc_of_Z B) h Hpos (length (props.data p)) B
                eq_refl) as Hsize.
  split; [lia|].
  intros Hs0 HH0 HB0.
  assert (0 ≤ Qc_of_Z B)%Qc as Hb0.
  { rewrite <- Z2Qc_inj_0. by apply (proj1 (Z2Qc_inj_le _ _)). }
  assert (0 ≤ Qceiling (H / h)%Qc) as Hc.
  { rewrite <- (ceiling_ofZ 0). apply ceiling_mono.
    rewrite Z2Qc_inj_0, <- (zero_div h). by apply div_le_mono. }
  rewrite (visibleData_length p st s H (Qc_of_Z B) h) by done.
  lia.
Qed.

Lemma window_size_bound_witness :
  ∃ a e : Z,
    startIndex sampleList (stateAt 6030 600) = JS.ofZ a ∧
    endIndex sampleList (stateAt 6030 600) = JS.ofZ e ∧
    e - a + 1 ≤ Qceiling (Qc_of_Z 600 / Qc_of_Z 60)%Qc + 2 * 3 + 3 ∧
    ((0 ≤ Qc_of_Z 6030)%Qc → (0 ≤ Qc_of_Z 600)%Qc → 0 ≤ 3 →
     Z.of_nat (length (visibleData sampleList (stateAt 6030 600)))
     ≤ Qceiling (Qc_of_Z 600 / Qc_of_Z 60)%Qc + 2 * 3 + 3).
Proof.
  apply (window_size_bound sampleList (stateAt 6030 600)
           (Qc_of_Z 6030) (Qc_of_Z 600) (Qc_of_Z 60) 3);
    try reflexivity; by vm_compute.
Defined.

(** C2 as stated fails: with the container 600 high, items 60 high and a
    buffer of 3, half an item past offset 6000 the window is [97 .. 114],
    18 items, above [ceil(600 / 60) + 2 * 3 + 1 = 17]. *)
Lemma slice_size_exceeds_bound :
  ¬ ∃ a e : Z,
      startIndex sampleList (stateAt 6030 600) = JS.ofZ a ∧
      endIndex sampleList (stateAt 6030 600) = JS.ofZ e ∧
      e - a + 1 ≤ Qceiling (Qc_of_Z 600 / Qc_of_Z 60)%Qc + 2 * 3 + 1.
Proof.
  intros (a & e & Ha & He & Hsize). unfold sampleList in Ha, He.
  rewrite (demo_startIndex _ _ _ 3) in Ha by done.
  rewrite (demo_endIndex _ _ _ 3) in He by done.
  apply ofZ_inj in Ha, He.
  vm_compute in Ha. vm_compute in He. subst a e.
  vm_compute in Hsize. by apply Hsize.
Qed.

(** The same with a [buffer] prop of 0, which counts as 5: the window is
    [95 .. 116], 22 items, for [ceil(600 / 60) + 2 * 0 + 1 = 11]. *)
Example zero_buffer_window :
  startIndex (demoProps (replicate 200 (withId 1)) 60 (Some 0))
    (stateAt 6030 600) = JS.ofZ 95 ∧
  endIndex (demoProps (replicate 200 (withId 1)) 60 (Some 0))
    (stateAt 6030 600) = JS.ofZ 116.
Proof.
  rewrite (demo_startIndex _ _ _ 5), (demo_endIndex _ _ _ 5) by done.
  split; f_equal.
Qed.

(** C6.  With 100000 items of height 60, a container 600 high and a
    buffer of 3: at scroll offset 0 the window is [0 .. 13] and 14 items
    are sliced; at scroll offset 6000 the window is [97 .. 113]. *)
Theorem scenario_windows (p : props.t) (st0 st6000 : State) :
  length (props.data p) = Z.to_nat 100000 →
  props.itemHeight p = JS.ofZ 60 →
  props.buffer p = Some (JS.ofZ 3) →
  scrollTop st0 = JS.ofZ 0 → containerHeight st0 = JS.ofZ 600 →
  scrollTop st6000 = JS.ofZ 6000 → containerHeight st6000 = JS.ofZ 600 →
  (startIndex p st0 = JS.ofZ 0 ∧ endIndex p st0 = JS.ofZ 13 ∧
   length (visibleData p st0) = 14%nat) ∧
  (startIndex p st6000 = JS.ofZ 97 ∧ endIndex p st6000 = JS.ofZ 113).
Proof.
  intros HL Hh Hbuf Hs0 HH0 Hs1 HH1.
  assert (buffer p = JS.ofZ 3) as Hb by (unfold buffer; by rewrite Hbuf).
  assert (0 < Qc_of_Z 60)%Qc as Hpos by done.
  assert (endZ (length (props.data p)) (Qc_of_Z 0) (Qc_of_Z 600)
            (Qc_of_Z 3) (Qc_of_Z 60) = 13) as He0.
  { unfold endZ. rewrite HL, Z2Nat.id by lia. by vm_compute. }
  assert (endZ (length (props.data p)) (Qc_of_Z 6000) (Qc_of_Z 600)
            (Qc_of_Z 3) (Qc_of_Z 60) = 113) as He1.
  { unfold endZ. rewrite HL, Z2Nat.id by lia. by vm_compute. }
  repeat split.
  - rewrite (startIndex_finite p st0 _ _ _ Hs0 Hb Hh Hpos). by vm_compute.
  - rewrite (endIndex_finite p st0 _ _ _ _ Hs0 HH0 Hb Hh Hpos). by rewrite He0.
  - rewrite (visibleData_length p st0 _ _ _ _ Hs0 HH0 Hb Hh Hpos) by done.
    rewrite He0, HL, Z2Nat.id by lia. by vm_compute.
  - rewrite (startIndex_finite p st6000 _ _ _ Hs1 Hb Hh Hpos). by vm_compute.
  - rewrite (endIndex_finite p st6000 _ _ _ _ Hs1 HH1 Hb Hh Hpos).
    by rewrite He1.
Qed.

Lemma scenario_windows_witness :
  (startIndex (demoProps (replicate (Z.to_nat 100000) (withId 1)) 60 (Some 3))
     (stateAt 0 600) = JS.ofZ 0 ∧
   endIndex (demoProps (replicate (Z.to_nat 100000) (withId 1)) 60 (Some 3))
     (stateAt 0 600) = JS.ofZ 13 ∧
   length
     (visibleData
        (demoProps (replicate (Z.to_nat 100000) (withId 1)) 60 (Some 3))
        (stateAt 0 600)) = 14%nat) ∧
  (startIndex (demoProps (replicate (Z.to_nat 100000) (withId 1)) 60 (Some 3))
     (stateAt 6000 600) = JS.ofZ 97 ∧
   endIndex (demoProps (replicate (Z.to_nat 100000) (withId 1)) 60 (Some 3))
     (stateAt 6000 600) = JS.ofZ 113).
Proof.
  apply (scenario_windows
           (demoProps (replicate (Z.to_nat 100000) (withId 1)) 60 (Some 3))
           (stateAt 0 600) (stateAt 6000 600));
    [apply length_replicate|reflexivity..].
Defined.

(** C8.  Shrinking the container from 600 to 300 at the same scroll
    offset, item height, buffer and dataset leaves [startIndex] as it
    is and does not raise [endIndex]: the window [startIndex .. endIndex]
    can only lose items at its end.  On non-negative geometry the sliced
    list does not grow either. *)
Theorem resize_narrows_from_end (p : props.t) (st600 st300 : State)
    (s b h : Qc) :
  scrollTop st600 = JS.Fin s → scrollTop st300 = JS.Fin s →
  containerHeight st600 = JS.ofZ 600 → containerHeight st300 = JS.ofZ 300 →
  buffer p = JS.Fin b →
  props.itemHeight p = JS.Fin h →
  (0 < h)%Qc →
  startIndex p st300 = startIndex p st600 ∧
  ∃ a e300 e600 : Z,
    startIndex p st600 = JS.ofZ a ∧
    endIndex p st300 = JS.ofZ e300 ∧ endIndex p st600 = JS.ofZ e600 ∧
    e300 ≤ e600 ∧ e300 - a + 1 ≤ e600 - a + 1 ∧
    ((0 ≤ s)%Qc → (0 ≤ b)%Qc →
     (length (visibleData p st300) ≤ length (visibleData p st600))%nat).
Proof.
  intros Hs6 Hs3 HH6 HH3 Hb Hh Hpos.
  assert (Qc_of_Z 300 ≤ Qc_of_Z 600)%Qc as Hle by done.
  pose proof (endZ_mono s (Qc_of_Z 600) b h Hpos (length (props.data p))
                (Qc_of_Z 300) Hle) as Hmono.
  split.
  { rewrite (startIndex_finite p st300 s b h), (startIndex_finite p st600 s b h);
      done. }
  exists (startZ s b h), (endZ (length (props.data p)) s (Qc_of_Z 300) b h),
    (endZ (length (props.data p)) s (Qc_of_Z 600) b h).
  split; [by apply (startIndex_finite p st600 s b h)|].
  split; [by apply (endIndex_finite p st300 s (Qc_of_Z 300) b h)|].
  split; [by apply (endIndex_finite p st600 s (Qc_of_Z 600) b h)|].
  split; [done|]. split; [lia|].
  intros Hs0 Hb0.
  rewrite (visibleData_length p st300 s (Qc_of_Z 300) b h),
    (visibleData_length p st600 s (Qc_of_Z 600) b h) by done.
  lia.
Qed.

Lemma resize_narrows_from_end_witness :
  startIndex sampleList (stateAt 6000 300) =
  startIndex sampleList (stateAt 6000 600) ∧
  ∃ a e300 e600 : Z,
    startIndex sampleList (stateAt 6000 600) = JS.ofZ a ∧
    endIndex sampleList (stateAt 6000 300) = JS.ofZ e300 ∧
    endIndex sampleList (stateAt 6000 600) = JS.ofZ e600 ∧
    e300 ≤ e600 ∧ e300 - a + 1 ≤ e600 - a + 1 ∧
    ((0 ≤ Qc_of_Z 6000)%Qc → (0 ≤ Qc_of_Z 3)%Qc →
     (length (visibleData sampleList (stateAt 6000 300))
      ≤ length (visibleData sampleList (stateAt 6000 600)))%nat).
Proof.
  apply (resize_narrows_from_end sampleList
           (stateAt 6000 600) (stateAt 6000 300)
           (Qc_of_Z 6000) (Qc_of_Z 3) (Qc_of_Z 60));
    try reflexivity; by vm_compute.
Defined.

(** ** The buffer default (claim C9) *)

Lemma truthy_zero : JS.truthy (JS.VNum (JS.ofZ 0)) = false.
Proof. reflexivity. Qed.

(** The falsy numbers are [0] and [NaN]. *)
Lemma truthy_number (n : JS.number) :
  JS.truthy (JS.VNum n) = false ↔ n = JS.Fin 0%Qc ∨ n = JS.NaN.
Proof.
  destruct n as [| | |q]; simpl.
  - split; [by right|done].
  - split; [done|by intros [|]].
  - split; [done|by intros [|]].
  - case_decide as Hq.
    + split; [|done]. intros _. left. by rewrite Hq.
    + split; [done|]. intros [[= ->]|]; done.
Qed.

(** A truthy [buffer] prop is used as it is. *)
Lemma buffer_truthy (p : props.t) (n : JS.number) :
  props.buffer p = Some n → JS.truthy (JS.VNum n) = true → buffer p = n.
Proof. intros Hn Ht. unfold buffer. by rewrite Hn, Ht. Qed.

Lemma buffer_default (p : props.t) : props.buffer p = None → buffer p = JS.ofZ 5.
Proof. intros Hn. unfold buffer. by rewrite Hn. Qed.

(** No configuration has an effective buffer of 0. *)
Lemma buffer_never_zero (p : props.t) : buffer p ≠ JS.ofZ 0.
Proof.
  unfold buffer. destruct (props.buffer p) as [n|].
  - destruct (JS.truthy (JS.VNum n)) eqn:Ht.
    + intros ->. by rewrite truthy_zero in Ht.
    + intros Heq. by apply ofZ_inj in Heq.
  - intros Heq. by apply ofZ_inj in Heq.
Qed.

(** C9.  A [buffer] prop of 0 (or any other falsy number) is replaced by
    the default 5: the effective buffer is 5, and the window and the
    slice are those of a component whose [buffer] prop is absent.  No
    configuration has an effective buffer of 0. *)
Theorem zero_buffer_is_default (p : props.t) (n : JS.number) :
  props.buffer p = Some n →
  n = JS.ofZ 0 ∨ JS.truthy (JS.VNum n) = false →
  buffer p = JS.ofZ 5 ∧
  (∀ st,
     startIndex p st = startIndex (withBuffer None p) st ∧
     endIndex p st = endIndex (withBuffer None p) st ∧
     visibleData p st = visibleData (withBuffer None p) st) ∧
  ∀ q : props.t, buffer q ≠ JS.ofZ 0.
Proof.
  intros Hn Hfalsy.
  assert (JS.truthy (JS.VNum n) = false) as Ht.
  { destruct Hfalsy as [->|Ht]; [apply truthy_zero|done]. }
  assert (buffer p = JS.ofZ 5) as Hb.
  { unfold buffer. by rewrite Hn, Ht. }
  split; [done|]. split; [|apply buffer_never_zero].
  intros st.
  assert (startIndex p st = startIndex (withBuffer None p) st) as Ha.
  { unfold startIndex. by rewrite Hb. }
  assert (endIndex p st = endIndex (withBuffer None p) st) as He.
  { unfold endIndex. by rewrite Hb. }
  split; [done|]. split; [done|].
  unfold visibleData. by rewrite Ha, He.
Qed.

Lemma zero_buffer_is_default_witness :
  buffer (demoProps [withId 1; withId 2] 60 (Some 0)) = JS.ofZ 5 ∧
  (∀ st,
     startIndex (demoProps [withId 1; withId 2] 60 (Some 0)) st =
     startIndex (withBuffer None (demoProps [withId 1; withId 2] 60 (Some 0))) st ∧
     endIndex (demoProps [withId 1; withId 2] 60 (Some 0)) st =
     endIndex (withBuffer None (demoProps [withId 1; withId 2] 60 (Some 0))) st ∧
     visibleData (demoProps [withId 1; withId 2] 60 (Some 0)) st =
     visibleData (withBuffer None (demoProps [withId 1; withId 2] 60 (Some 0))) st) ∧
  ∀ q : props.t, buffer q ≠ JS.ofZ 0.
Proof.
  apply (zero_buffer_is_default (demoProps [withId 1; withId 2] 60 (Some 0))
           (JS.ofZ 0)); [reflexivity|left; reflexivity].
Defined.

(** ** Spacer height and offset (claims C5 and C7) *)

(** C5.  In every render pass the spacer height is
    [props.data.length * props.itemHeight], whatever the window, and the
    translation of the content is [startIndex * props.itemHeight]. *)
Theorem render_geometry (p : props.t) (st : State) (v : View) :
  render p st = JS.Normal v →
  wrapperHeight v =
    JS.mul (JS.ofNat (length (props.data p))) (props.itemHeight p) ∧
  translateY v = JS.mul (startIndex p st) (props.itemHeight p) ∧
  totalHeight p = wrapperHeight v ∧ offsetY p st = translateY v.
Proof.
  unfold render.
  destruct (renderList p st 0 (visibleData p st)) as [xs|]; simpl; [|done].
  by intros [= <-].
Qed.

(** C7.  With an empty dataset nothing is sliced and nothing is rendered,
    at every scroll offset and container height; the spacer height is 0
    for every finite item height; and on finite inputs the index range
    is empty ([endIndex < startIndex]). *)
Theorem empty_dataset (p : props.t) (st : State) (h : Qc) :
  props.data p = [] →
  props.itemHeight p = JS.Fin h →
  visibleData p st = [] ∧
  totalHeight p = JS.ofZ 0 ∧
  render p st =
    JS.Normal {| wrapperHeight := JS.ofZ 0;
                 translateY := offsetY p st;
                 items := [] |} ∧
  ∀ s H b, scrollTop st = JS.Fin s → containerHeight st = JS.Fin H →
    buffer p = JS.Fin b → (0 < h)%Qc →
    ∃ a e : Z,
      startIndex p st = JS.ofZ a ∧ endIndex p st = JS.ofZ e ∧ e < 0 ≤ a.
Proof.
  intros Hdata Hh.
  assert (visibleData p st = []) as Hvis.
  { unfold visibleData. rewrite Hdata. apply slice_nil. }
  assert (totalHeight p = JS.ofZ 0) as Htot.
  { unfold totalHeight. rewrite Hdata, Hh.
    change (JS.ofNat (length [])) with (JS.ofZ 0).
    unfold JS.ofZ. cbn [JS.mul]. by rewrite Z2Qc_inj_0, Qcmult_0_l. }
  split; [done|]. split; [done|]. split.
  { unfold render. rewrite Hvis. simpl. by rewrite Htot. }
  intros s H b Hs HH Hb Hpos.
  exists (startZ s b h), (endZ (length (props.data p)) s H b h).
  split; [by apply (startIndex_finite p st s b h)|].
  split; [by apply (endIndex_finite p st s H b h)|].
  pose proof (startZ_nonneg s b h Hpos).
  pose proof (endZ_le_last s H b h (length (props.data p))) as Hlast.
  assert (length (props.data p) = 0%nat) as Hlen by (by rewrite Hdata).
  lia.
Qed.

Lemma empty_dataset_witness :
  visibleData (demoProps [] 60 (Some 3)) (stateAt 6000 600) = [] ∧
  totalHeight (demoProps [] 60 (Some 3)) = JS.ofZ 0 ∧
  render (demoProps [] 60 (Some 3)) (stateAt 6000 600) =
    JS.Normal
      {| wrapperHeight := JS.ofZ 0;
         translateY := offsetY (demoProps [] 60 (Some 3)) (stateAt 6000 600);
         items := [] |} ∧
  ∀ s H b,
    scrollTop (stateAt 6000 600) = JS.Fin s →
    containerHeight (stateAt 6000 600) = JS.Fin H →
    buffer (demoProps [] 60 (Some 3)) = JS.Fin b → (0 < Qc_of_Z 60)%Qc →
    ∃ a e : Z,
      startIndex (demoProps [] 60 (Some 3)) (stateAt 6000 600) = JS.ofZ a ∧
      endIndex (demoProps [] 60 (Some 3)) (stateAt 6000 600) = JS.ofZ e ∧
      e < 0 ≤ a.
Proof.
  apply (empty_dataset (demoProps [] 60 (Some 3)) (stateAt 6000 600)
           (Qc_of_Z 60)); reflexivity.
Defined.

Lemma render_geometry_witness :
  wrapperHeight sampleView =
    JS.mul (JS.ofNat (length (props.data (demoProps [withId 1] 60 (Some 3)))))
      (props.itemHeight (demoProps [withId 1] 60 (Some 3))) ∧
  translateY sampleView =
    JS.mul (startIndex (demoProps [withId 1] 60 (Some 3)) (stateAt 0 600))
      (props.itemHeight (demoProps [withId 1] 60 (Some 3))) ∧
  totalHeight (demoProps [withId 1] 60 (Some 3)) = wrapperHeight sampleView ∧
  offsetY (demoProps [withId 1] 60 (Some 3)) (stateAt 0 600) =
    translateY sampleView.
Proof.
  apply (render_geometry (demoProps [withId 1] 60 (Some 3)) (stateAt 0 600)).
  by vm_compute.
Defined.

(** ** Item height (claim C3) *)

(** Division by the zero item height (the zero of the model is the
    positive one). *)
Lemma startIndex_zero_height (p : props.t) (st : State) (s b : Qc) :
  props.itemHeight p = JS.Fin 0%Qc →
  scrollTop st = JS.Fin s → buffer p = JS.Fin b →
  startIndex p st = if decide (0 < s)%Qc then JS.PosInf else JS.NaN.
Proof.
  intros Hh Hs Hb. unfold startIndex. rewrite Hh, Hs, Hb.
  unfold JS.ofZ. cbn [JS.sub JS.mul JS.neg JS.add JS.max].
  replace (s + - (b * 0))%Qc with s by ring.
  rewrite Z2Qc_inj_0. case_decide as Hs0.
  - unfold JS.div. replace (0 ?= 0)%Qc with Eq by done.
    apply Qcgt_alt in Hs0. by rewrite Hs0.
  - unfold JS.div. by replace (0 ?= 0)%Qc with Eq by done.
Qed.

(** C3, as amended.  An item height [<= 0] raises nothing: on a dataset
    of readable items, both render passes of the mount complete
    normally.  With an item height of 0 the start index is the result of
    a division by zero and is no finite number: [NaN] when the scroll
    offset is not positive, and an infinity ([Infinity], or [-Infinity]
    for the negative zero) when it is positive. *)
Theorem nonpositive_item_height_renders (env : Env) (p : props.t) (h : Qc) :
  props.itemHeight p = JS.Fin h →
  (h ≤ 0)%Qc →
  Forall readable (props.data p) →
  (∃ v, firstRender p = JS.Normal v) ∧
  (∃ v, mountAndRender env p = JS.Normal v) ∧
  (h = 0%Qc → ∀ st s b,
     scrollTop st = JS.Fin s → buffer p = JS.Fin b →
     if decide (0 < s)%Qc
     then startIndex p st = JS.PosInf ∨ startIndex p st = JS.NegInf
     else startIndex p st = JS.NaN).
Proof.
  intros Hh Hle Hall. split; [|split].
  - destruct (render_total p (setup p) Hall) as (v & Hv & _).
    by exists v.
  - destruct (render_total p (onMounted env p (setup p)) Hall) as (v & Hv & _).
    by exists v.
  - intros -> st s b Hs Hb.
    rewrite (startIndex_zero_height p st s b) by done.
    case_decide; [by left|done].
Qed.

Lemma nonpositive_item_height_renders_witness :
  (∃ v, firstRender (demoProps [withId 1; withId 2] 0 (Some 3))
        = JS.Normal v) ∧
  (∃ v, mountAndRender demoEnv (demoProps [withId 1; withId 2] 0 (Some 3))
        = JS.Normal v) ∧
  (Qc_of_Z 0 = 0%Qc → ∀ st s b,
     scrollTop st = JS.Fin s →
     buffer (demoProps [withId 1; withId 2] 0 (Some 3)) = JS.Fin b →
     if decide (0 < s)%Qc
     then startIndex (demoProps [withId 1; withId 2] 0 (Some 3)) st
            = JS.PosInf ∨
          startIndex (demoProps [withId 1; withId 2] 0 (Some 3)) st
            = JS.NegInf
     else startIndex (demoProps [withId 1; withId 2] 0 (Some 3)) st = JS.NaN).
Proof.
  apply (nonpositive_item_height_renders demoEnv
           (demoProps [withId 1; withId 2] 0 (Some 3)) (Qc_of_Z 0)).
  - reflexivity.
  - by vm_compute.
  - repeat constructor; discriminate.
Defined.

(** C3 as stated fails: with an item height of 0 neither render pass of
    the mount throws, the start index after [onMounted] is [NaN], and the
    whole dataset is sliced. *)
Lemma zero_item_height_not_rejected :
  (∀ e, firstRender (demoProps [withId 1; withId 2] 0 (Some 3))
        ≠ JS.Throw e) ∧
  (∀ e, mountAndRender demoEnv (demoProps [withId 1; withId 2] 0 (Some 3))
        ≠ JS.Throw e) ∧
  startIndex (demoProps [withId 1; withId 2] 0 (Some 3))
    (onMounted demoEnv (demoProps [withId 1; withId 2] 0 (Some 3))
       (setup (demoProps [withId 1; withId 2] 0 (Some 3)))) = JS.NaN ∧
  visibleData (demoProps [withId 1; withId 2] 0 (Some 3))
    (onMounted demoEnv (demoProps [withId 1; withId 2] 0 (Some 3))
       (setup (demoProps [withId 1; withId 2] 0 (Some 3))))
  = [withId 1; withId 2].
Proof.
  split; [|split; [|split]].
  - intros e. by vm_compute.
  - intros e. by vm_compute.
  - by vm_compute.
  - by vm_compute.
Qed.

(** ** Keys and slot indices (claims C4 and C10) *)

(** C4, as amended.  The item rendered at position [i] of the slice has
    the key [item[keyField]] when that value is truthy, and the loop
    index [i] (its position in the slice, not in the dataset) otherwise;
    the index handed to the slot is [startIndex + i]. *)
Theorem item_key (p : props.t) (st : State) (v : View) (i : nat) (x : Item) :
  render p st = JS.Normal v →
  items v !! i = Some x →
  visibleData p st !! i = Some (item x) ∧
  index x = JS.add (startIndex p st) (JS.ofNat i) ∧
  ∃ k, JS.get (item x) (keyField p) = JS.Normal k ∧
       (JS.truthy k = true → key x = k) ∧
       (JS.truthy k = false → key x = JS.VNum (JS.ofNat i)).
Proof.
  intros Hv Hx.
  destruct (rendered_item p st v i x Hv Hx) as (Hit & Hidx & k & Hk & Hkey).
  split; [done|]. split; [done|].
  exists k. split; [done|]. unfold JS.or in Hkey.
  split; intros Ht; by rewrite Ht in Hkey.
Qed.

Lemma keyedList_render : render keyedList (stateAt 240 600) = JS.Normal keyedView.
Proof. by vm_compute. Qed.

Lemma item_key_witness :
  visibleData keyedList (stateAt 240 600) !! 1%nat = Some (item keyedItem) ∧
  index keyedItem =
    JS.add (startIndex keyedList (stateAt 240 600)) (JS.ofNat 1) ∧
  ∃ k, JS.get (item keyedItem) (keyField keyedList) = JS.Normal k ∧
       (JS.truthy k = true → key keyedItem = k) ∧
       (JS.truthy k = false → key keyedItem = JS.VNum (JS.ofNat 1)).
Proof.
  apply (item_key keyedList (stateAt 240 600) keyedView 1 keyedItem).
  - by vm_compute.
  - reflexivity.
Defined.

(** C4 as stated fails.  The record at dataset index 2 has the id 0,
    present and not null, and is keyed by its loop index 1; the record at
    dataset index 3 has no id and is keyed by its loop index 2, not by
    its dataset index. *)
Lemma key_is_loop_index :
  ∃ v x y,
    render keyedList (stateAt 240 600) = JS.Normal v ∧
    items v !! 1%nat = Some x ∧ items v !! 2%nat = Some y ∧
    JS.get (item x) (keyField keyedList) = JS.Normal (JS.VNum (JS.ofZ 0)) ∧
    index x = JS.ofZ 2 ∧
    key x = JS.VNum (JS.ofZ 1) ∧ key x ≠ JS.VNum (JS.ofZ 0) ∧
    JS.get (item y) (keyField keyedList) = JS.Normal JS.VUndefined ∧
    index y = JS.ofZ 3 ∧
    key y = JS.VNum (JS.ofZ 2) ∧ key y ≠ JS.VNum (index y).
Proof.
  eexists keyedView, _, _.
  split; [apply keyedList_render|].
  split; [reflexivity|]. split; [reflexivity|].
  repeat split; try (by vm_compute).
  - unfold keyedItem. cbn [index]. unfold keyedList, JS.ofNat.
    rewrite (demo_startIndex _ _ _ 3), add_ofZ by done. by vm_compute.
  - cbn [index]. unfold keyedList, JS.ofNat.
    rewrite (demo_startIndex _ _ _ 3), add_ofZ by done. by vm_compute.
Qed.

(** C10, as amended.  For an item height [h > 0] and finite geometry,
    every item handed to the slot comes with the index it has in the
    dataset: no element is read outside the dataset.  On non-negative
    scroll offset, container height and buffer, an index range that is
    inverted or starts beyond the dataset renders nothing. *)
Theorem slice_safety (p : props.t) (st : State) (s H b h : Qc) :
  scrollTop st = JS.Fin s →
  containerHeight st = JS.Fin H →
  buffer p = JS.Fin b →
  props.itemHeight p = JS.Fin h →
  (0 < h)%Qc →
  (∀ v i x,
     render p st = JS.Normal v → items v !! i = Some x →
     ∃ n : nat, index x = JS.ofNat n ∧ props.data p !! n = Some (item x)) ∧
  ((0 ≤ s)%Qc → (0 ≤ H)%Qc → (0 ≤ b)%Qc →
   ∀ a e : Z,
     startIndex p st = JS.ofZ a → endIndex p st = JS.ofZ e →
     e < a ∨ Z.of_nat (length (props.data p)) ≤ a →
     visibleData p st = [] ∧
     render p st =
       JS.Normal {| wrapperHeight := totalHeight p;
                    translateY := offsetY p st;
                    items := [] |}).
Proof.
  intros Hs HH Hb Hh Hpos.
  pose proof (startIndex_finite p st s b h Hs Hb Hh Hpos) as Ha.
  pose proof (endIndex_finite p st s H b h Hs HH Hb Hh Hpos) as He.
  pose proof (startZ_nonneg s b h Hpos) as Ha0.
  split.
  - intros v i x Hv Hx.
    destruct (rendered_item p st v i x Hv Hx) as (Hit & Hidx & _).
    exists (Z.to_nat (startZ s b h) + i)%nat. split.
    + rewrite Hidx, Ha. unfold JS.ofNat. rewrite add_ofZ.
      f_equal. lia.
    + unfold visibleData in Hit. rewrite Ha in Hit.
      by apply (slice_lookup _ _ _ _ _ Ha0 Hit).
  - intros Hs0 HH0 Hb0 a e Hsa Hse Hor.
    rewrite Ha in Hsa. rewrite He in Hse.
    apply ofZ_inj in Hsa, Hse. subst a e.
    pose proof (endZ_ge_minus_one s H b h Hpos Hs0 HH0 Hb0
                  (length (props.data p))) as He1.
    assert (visibleData p st = []) as Hvis.
    { rewrite (visibleData_finite p st s H b h) by done.
      apply slice_empty; lia. }
    split; [done|]. unfold render. by rewrite Hvis.
Qed.

Lemma slice_safety_witness :
  (∀ v i x,
     render keyedList (stateAt 240 600) = JS.Normal v →
     items v !! i = Some x →
     ∃ n : nat,
       index x = JS.ofNat n ∧ props.data keyedList !! n = Some (item x)) ∧
  ((0 ≤ Qc_of_Z 240)%Qc → (0 ≤ Qc_of_Z 600)%Qc → (0 ≤ Qc_of_Z 3)%Qc →
   ∀ a e : Z,
     startIndex keyedList (stateAt 240 600) = JS.ofZ a →
     endIndex keyedList (stateAt 240 600) = JS.ofZ e →
     e < a ∨ Z.of_nat (length (props.data keyedList)) ≤ a →
     visibleData keyedList (stateAt 240 600) = [] ∧
     render keyedList (stateAt 240 600) =
       JS.Normal {| wrapperHeight := totalHeight keyedList;
                    translateY := offsetY keyedList (stateAt 240 600);
                    items := [] |}).
Proof.
  apply (slice_safety keyedList (stateAt 240 600)
           (Qc_of_Z 240) (Qc_of_Z 600) (Qc_of_Z 3) (Qc_of_Z 60));
    try reflexivity; by vm_compute.
Defined.

(** C10 as stated fails: at the scroll offset -2000 the index range is
    [0 .. -18], inverted, and [slice(0, -17)] counts its end from the
    back of the dataset, so three items are rendered. *)
Lemma negative_end_counts_from_back :
  startIndex shortList (stateAt (-2000) 600) = JS.ofZ 0 ∧
  endIndex shortList (stateAt (-2000) 600) = JS.ofZ (-18) ∧
  visibleData shortList (stateAt (-2000) 600) = replicate 3 (withId 1) ∧
  ¬ (∀ a e : Z,
       startIndex shortList (stateAt (-2000) 600) = JS.ofZ a →
       endIndex shortList (stateAt (-2000) 600) = JS.ofZ e →
       e < a ∨ Z.of_nat (length (props.data shortList)) ≤ a →
       visibleData shortList (stateAt (-2000) 600) = []).
Proof.
  assert (startIndex shortList (stateAt (-2000) 600) = JS.ofZ 0) as Ha.
  { unfold shortList. rewrite (demo_startIndex _ _ _ 5) by done.
    by vm_compute. }
  assert (endIndex shortList (stateAt (-2000) 600) = JS.ofZ (-18)) as He.
  { unfold shortList. rewrite (demo_endIndex _ _ _ 5) by done.
    by vm_compute. }
  assert (visibleData shortList (stateAt (-2000) 600)
          = replicate 3 (withId 1)) as Hvis by (by vm_compute).
  split; [done|]. split; [done|]. split; [done|].
  intros Hclaim. specialize (Hclaim 0 (-18) Ha He).
  rewrite Hvis in Hclaim. discriminate Hclaim. lia.
Qed.

(** The sliced list does not grow when the container shrinks, on
    non-negative scroll offset and buffer. *)
Lemma visibleData_shrinks (p : props.t) (st st' : State) (s H H' b h : Qc) :
  scrollTop st = JS.Fin s → scrollTop st' = JS.Fin s →
  containerHeight st = JS.Fin H → containerHeight st' = JS.Fin H' →
  buffer p = JS.Fin b → props.itemHeight p = JS.Fin h →
  (0 < h)%Qc → (0 ≤ s)%Qc → (0 ≤ b)%Qc → (0 ≤ H')%Qc → (H' ≤ H)%Qc →
  (length (visibleData p st') ≤ length (visibleData p st))%nat.
Proof.
  intros Hs Hs' HH HH' Hb Hh Hpos Hs0 Hb0 HH0 Hle.
  assert (0 ≤ H)%Qc as HH1 by (by eapply Qcle_trans).
  rewrite (visibleData_length p st' s H' b h),
    (visibleData_length p st s H b h) by done.
  pose proof (endZ_mono s H b h Hpos (length (props.data p)) H' Hle).
  lia.
Qed.

(** ** More arithmetic of the window *)

Section RoundingShift.

Local Open Scope Qc_scope.

(** The floor is the only integer [z] with [z <= x < z + 1]. *)
Lemma floor_unique (x : Qc) (z : Z) :
  Qc_of_Z z ≤ x → x < Qc_of_Z z + 1 → Qfloor x = z.
Proof.
  intros Hle Hlt.
  pose proof (floor_le x) as Hf1. pose proof (lt_floor x) as Hf2.
  apply Z.le_antisymm; apply Z_le_Qc.
  - eapply Qcle_lt_trans; [apply Hf1|apply Hlt].
  - eapply Qcle_lt_trans; [apply Hle|apply Hf2].
Qed.

Lemma ceiling_unique (x : Qc) (z : Z) :
  Qc_of_Z z - 1 < x → x ≤ Qc_of_Z z → Qceiling x = z.
Proof.
  intros Hlt Hle.
  pose proof (le_ceiling x) as Hc1. pose proof (ceiling_lt x) as Hc2.
  apply Z.le_antisymm; apply Z_le_Qc.
  - assert (Qc_of_Z (Qceiling x) - 1 < Qc_of_Z z) as Hs
      by (eapply Qclt_le_trans; [apply Hc2|apply Hle]).
    clear -Hs. qc_lra.
  - assert (Qc_of_Z z - 1 < Qc_of_Z (Qceiling x)) as Hs
      by (eapply Qclt_le_trans; [apply Hlt|apply Hc1]).
    clear -Hs. qc_lra.
Qed.

Lemma floor_sub_Z (x : Qc) (n : Z) :
  Qfloor (x - Qc_of_Z n)%Qc = (Qfloor x - n)%Z.
Proof.
  pose proof (floor_le x) as Hf1. pose proof (lt_floor x) as Hf2.
  apply floor_unique; rewrite Z2Qc_inj_sub; qc_lra.
Qed.

Lemma ceiling_add_Z (x : Qc) (n : Z) :
  Qceiling (x + Qc_of_Z n)%Qc = (Qceiling x + n)%Z.
Proof.
  pose proof (le_ceiling x) as Hc1. pose proof (ceiling_lt x) as Hc2.
  apply ceiling_unique; rewrite Z2Qc_inj_add; qc_lra.
Qed.

End RoundingShift.

Section WindowShape.

Local Open Scope Qc_scope.

Variables s H h : Qc.
Hypothesis Hpos : 0 < h.

(** With a whole number [B] of buffer items the start index is [B]
    items above the item at the scroll offset, stopping at 0. *)
Lemma startZ_integer_buffer (B : Z) :
  startZ s (Qc_of_Z B) h = Z.max 0 (Qfloor (s / h)%Qc - B).
Proof.
  unfold startZ.
  destruct (clamp0_cases (s - Qc_of_Z B * h)) as [[Hgt ->]|[Hle ->]].
  - rewrite start_quotient by done. rewrite floor_sub_Z.
    apply (div_lt_mono _ _ h Hpos) in Hgt.
    rewrite zero_div, start_quotient in Hgt by done.
    pose proof (lt_floor (s / h)) as Hf.
    assert (Qc_of_Z B < Qc_of_Z (Qfloor (s / h)%Qc) + 1) as HB
      by (clear -Hgt Hf; qc_lra).
    apply Z_le_Qc in HB. lia.
  - rewrite zero_div. rewrite <- Z2Qc_inj_0, floor_ofZ.
    apply (div_le_mono _ _ h Hpos) in Hle.
    rewrite zero_div, start_quotient in Hle by done.
    pose proof (floor_le (s / h)) as Hf.
    assert (Qc_of_Z (Qfloor (s / h)%Qc) < Qc_of_Z B + 1) as HB
      by (clear -Hle Hf; qc_lra).
    apply Z_le_Qc in HB. lia.
Qed.

(** ... and the end index is [B] items below the item at the bottom
    edge of the container, stopping at the last item. *)
Lemma endZ_integer_buffer (L : nat) (B : Z) :
  endZ L s H (Qc_of_Z B) h =
  Z.min (Z.of_nat L - 1) (Qceiling ((s + H) / h)%Qc + B).
Proof.
  unfold endZ. rewrite end_quotient by done.
  by rewrite ceiling_add_Z, <- div_plus.
Qed.

Lemma clamp0_mono (x y : Qc) : x ≤ y → clamp0 x ≤ clamp0 y.
Proof.
  intros Hxy.
  destruct (clamp0_cases x) as [[Hx ->]|[Hx ->]];
    destruct (clamp0_cases y) as [[Hy ->]|[Hy ->]]; try done.
  - by eapply Qcle_trans.
  - by apply Qclt_le_weak.
Qed.

(** Both indices grow with the scroll offset. *)
Lemma startZ_mono (b s' : Qc) : s ≤ s' → (startZ s b h ≤ startZ s' b h)%Z.
Proof.
  intros Hle. unfold startZ. apply floor_mono, div_le_mono; [done|].
  apply clamp0_mono. unfold Qcminus. by apply Qcplus_le_mono_r.
Qed.

Lemma endZ_mono_scroll (L : nat) (b s' : Qc) :
  s ≤ s' → (endZ L s H b h ≤ endZ L s' H b h)%Z.
Proof.
  intros Hle. unfold endZ. apply Z.min_le_compat_l, ceiling_mono.
  apply div_le_mono; [done|].
  by do 2 apply Qcplus_le_mono_r.
Qed.

End WindowShape.

Section SliceExact.

Context {A : Type}.
Implicit Types arr : list A.

(** Between indices [0 <= a <= e < len] the slice is the run of
    [e - a] elements that starts at [a]. *)
Lemma slice_inside arr (a e : Z) :
  0 ≤ a → a ≤ e → e ≤ Z.of_nat (length arr) →
  JS.slice arr (JS.ofZ a) (JS.ofZ e) =
  take (Z.to_nat (e - a)) (drop (Z.to_nat a) arr).
Proof.
  intros Ha Hae He. unfold JS.slice.
  rewrite !relativeIndex_nonneg by lia.
  f_equal; [lia|]. f_equal. lia.
Qed.

Lemma slice_inside_lookup arr (a e : Z) (j : nat) :
  0 ≤ a → a ≤ e → e ≤ Z.of_nat (length arr) →
  (Z.of_nat j < e - a) →
  JS.slice arr (JS.ofZ a) (JS.ofZ e) !! j = arr !! (Z.to_nat a + j)%nat.
Proof.
  intros Ha Hae He Hj. rewrite slice_inside by done.
  rewrite lookup_take_lt by lia. apply lookup_drop.
Qed.

End SliceExact.

Section WindowPixels.

Local Open Scope Qc_scope.

Lemma mul_le_of_le_div (x y h : Qc) : 0 < h → x ≤ y / h → x * h ≤ y.
Proof.
  intros Hh Hle.
  apply (Qcmult_le_mono_pos_r _ _ h Hh) in Hle.
  rewrite (Qcmult_comm (y / h) h), Qcmult_div_r in Hle; [done|].
  intros ->. by apply Qclt_not_eq in Hh.
Qed.

Lemma le_mul_of_div_le (x y h : Qc) : 0 < h → y / h ≤ x → y ≤ x * h.
Proof.
  intros Hh Hle.
  apply (Qcmult_le_mono_pos_r _ _ h Hh) in Hle.
  rewrite (Qcmult_comm (y / h) h), Qcmult_div_r in Hle; [done|].
  intros ->. by apply Qclt_not_eq in Hh.
Qed.

Lemma div_lt_of_lt_mul (x y h : Qc) : 0 < h → y < x * h → y / h < x.
Proof.
  intros Hh Hlt. apply (div_lt_mono _ _ h Hh) in Hlt.
  by rewrite div_mul_cancel in Hlt.
Qed.

Lemma lt_div_of_mul_lt (x y h : Qc) : 0 < h → x * h < y → x < y / h.
Proof.
  intros Hh Hlt. apply (div_lt_mono _ _ h Hh) in Hlt.
  by rewrite div_mul_cancel in Hlt.
Qed.

Variables s H b h : Qc.
Hypothesis Hpos : 0 < h.
Hypothesis Hs0 : 0 ≤ s.
Hypothesis HH0 : 0 ≤ H.
Hypothesis Hb0 : 0 ≤ b.

Lemma clamp0_le_scroll : clamp0 (s - b * h) ≤ s.
Proof.
  pose proof (buffer_px_nonneg b h Hpos Hb0) as Hbh.
  destruct (clamp0_cases (s - b * h)) as [[_ ->]|[_ ->]]; [|done].
  generalize dependent (b * h). intros x Hx. qc_lra.
Qed.

(** The first rendered item begins at or above the scroll offset. *)
Lemma startZ_px_le_scroll : Qc_of_Z (startZ s b h) * h ≤ s.
Proof.
  apply mul_le_of_le_div; [done|].
  eapply Qcle_trans; [apply floor_le|].
  apply div_le_mono; [done|apply clamp0_le_scroll].
Qed.

(** Unless the window ends at the last item, the last rendered item ends
    at or below the bottom edge of the container. *)
Lemma endZ_px_ge_bottom (L : nat) :
  endZ L s H b h = (Z.of_nat L - 1)%Z ∨
  s + H ≤ (Qc_of_Z (endZ L s H b h) + 1) * h.
Proof.
  unfold endZ.
  destruct (Z.min_spec (Z.of_nat L - 1) (Qceiling ((s + H + b * h) / h)%Qc))
    as [[_ ->]|[_ ->]]; [by left|right].
  pose proof (le_ceiling ((s + H + b * h) / h)) as Hc.
  apply le_mul_of_div_le in Hc; [|done].
  pose proof (buffer_px_nonneg b h Hpos Hb0) as Hbh.
  set (c := Qc_of_Z (Qceiling ((s + H + b * h) / h)%Qc)) in *.
  rewrite Qcmult_plus_distr_l, Qcmult_1_l.
  clearbody c. generalize dependent (b * h). generalize dependent (c * h).
  intros x y. intros. qc_lra.
Qed.

(** An item that meets the viewport lies inside the window. *)
Lemma viewport_item_in_window (L : nat) (i : Z) :
  (i < Z.of_nat L)%Z →
  Qc_of_Z i * h < s + H → s < (Qc_of_Z i + 1) * h →
  (startZ s b h ≤ i ∧ i ≤ endZ L s H b h)%Z.
Proof.
  intros HiL Htop Hbot. split.
  - apply Z_le_Qc. eapply Qcle_lt_trans; [apply floor_le|].
    eapply Qcle_lt_trans; [apply div_le_mono; [done|apply clamp0_le_scroll]|].
    by apply div_lt_of_lt_mul.
  - unfold endZ. apply Z.min_glb; [lia|].
    cut (i < Qceiling ((s + H + b * h) / h)%Qc + 1)%Z; [lia|].
    apply (proj2 (Z2Qc_inj_lt _ _)). rewrite Z2Qc_inj_add, Z2Qc_inj_1.
    pose proof (le_ceiling ((s + H + b * h) / h)) as Hc.
    assert (Qc_of_Z i < (s + H + b * h) / h) as Hi.
    { apply lt_div_of_mul_lt; [done|].
      pose proof (buffer_px_nonneg b h Hpos Hb0) as Hbh.
      generalize dependent (b * h). generalize dependent (Qc_of_Z i * h).
      intros x Hx y _ Hy. qc_lra. }
    generalize dependent ((s + H + b * h) / h).
    intros x Hx Hi. qc_lra.
Qed.

End WindowPixels.

(** ** The window and the viewport *)

(** Quotients of whole numbers. *)
Lemma floor_div_Z (n h : Z) :
  0 < h → Qfloor (Qc_of_Z n / Qc_of_Z h)%Qc = n / h.
Proof.
  intros Hh.
  assert (0 < Qc_of_Z h)%Qc as Hpos.
  { rewrite <- Z2Qc_inj_0. by apply (proj1 (Z2Qc_inj_lt _ _)). }
  pose proof (Z.mul_div_le n h Hh). pose proof (Z.mul_succ_div_gt n h Hh).
  apply floor_unique.
  - rewrite <- (div_mul_cancel (Qc_of_Z (n / h)) (Qc_of_Z h)) by done.
    apply div_le_mono; [done|].
    rewrite <- Z2Qc_inj_mul. apply (proj1 (Z2Qc_inj_le _ _)). lia.
  - rewrite <- Z2Qc_inj_1, <- Z2Qc_inj_add.
    apply div_lt_of_lt_mul; [done|].
    rewrite <- Z2Qc_inj_mul. apply (proj1 (Z2Qc_inj_lt _ _)). lia.
Qed.

Lemma ceiling_div_Z (n h : Z) :
  0 < h → Qceiling (Qc_of_Z n / Qc_of_Z h)%Qc = (n + h - 1) / h.
Proof.
  intros Hh.
  assert (0 < Qc_of_Z h)%Qc as Hpos.
  { rewrite <- Z2Qc_inj_0. by apply (proj1 (Z2Qc_inj_lt _ _)). }
  pose proof (Z.mul_div_le (n + h - 1) h Hh).
  pose proof (Z.mul_succ_div_gt (n + h - 1) h Hh).
  apply ceiling_unique.
  - rewrite <- Z2Qc_inj_1, <- Z2Qc_inj_sub.
    apply lt_div_of_mul_lt; [done|].
    rewrite <- Z2Qc_inj_mul. apply (proj1 (Z2Qc_inj_lt _ _)). lia.
  - rewrite <- (div_mul_cancel (Qc_of_Z ((n + h - 1) / h)) (Qc_of_Z h)) by done.
    apply div_le_mono; [done|].
    rewrite <- Z2Qc_inj_mul. apply (proj1 (Z2Qc_inj_le _ _)). lia.
Qed.

(** X1.  On whole-pixel geometry (scroll offset, container height and
    item height are whole numbers, below [2^53] together with the
    buffer, so that every quotient of the source is computed exactly)
    and with a whole number [B] of buffer items, the window runs from
    [B] items above the item at the scroll offset (not above item 0) to
    [B] items below the item at the bottom edge of the container (not
    below the last item). *)
Theorem integer_buffer_window (p : props.t) (st : State) (s H h B : Z) :
  scrollTop st = JS.ofZ s →
  containerHeight st = JS.ofZ H →
  buffer p = JS.ofZ B →
  props.itemHeight p = JS.ofZ h →
  0 < h → 0 ≤ s → 0 ≤ H → 0 ≤ B → s + H + B * h < 2 ^ 53 →
  startIndex p st = JS.ofZ (Z.max 0 (s / h - B)) ∧
  endIndex p st =
    JS.ofZ (Z.min (Z.of_nat (length (props.data p)) - 1)
              ((s + H + h - 1) / h + B)).
Proof.
  intros Hs HH Hb Hh Hpos Hs0 HH0 HB0 _.
  assert (0 < Qc_of_Z h)%Qc as Hhpos.
  { rewrite <- Z2Qc_inj_0. by apply (proj1 (Z2Qc_inj_lt _ _)). }
  split.
  - rewrite (startIndex_finite p st (Qc_of_Z s) (Qc_of_Z B) (Qc_of_Z h))
      by done.
    by rewrite startZ_integer_buffer, floor_div_Z.
  - rewrite (endIndex_finite p st (Qc_of_Z s) (Qc_of_Z H) (Qc_of_Z B)
               (Qc_of_Z h)) by done.
    rewrite endZ_integer_buffer by done.
    by rewrite <- Z2Qc_inj_add, ceiling_div_Z.
Qed.

Lemma integer_buffer_window_witness :
  startIndex sampleList (stateAt 6030 600) =
    JS.ofZ (Z.max 0 (6030 / 60 - 3)) ∧
  endIndex sampleList (stateAt 6030 600) =
    JS.ofZ (Z.min (Z.of_nat (length (props.data sampleList)) - 1)
              ((6030 + 600 + 60 - 1) / 60 + 3)).
Proof.
  apply (integer_buffer_window sampleList (stateAt 6030 600) 6030 600 60 3);
    try reflexivity; lia.
Defined.

(** X2.  Scrolling down never moves either end of the window up. *)
Theorem window_monotone_in_scroll (p : props.t) (st st' : State)
    (s s' H b h : Qc) :
  scrollTop st = JS.Fin s → scrollTop st' = JS.Fin s' →
  containerHeight st = JS.Fin H → containerHeight st' = JS.Fin H →
  buffer p = JS.Fin b →
  props.itemHeight p = JS.Fin h →
  (0 < h)%Qc → (s ≤ s')%Qc →
  ∃ a a' e e' : Z,
    startIndex p st = JS.ofZ a ∧ startIndex p st' = JS.ofZ a' ∧
    endIndex p st = JS.ofZ e ∧ endIndex p st' = JS.ofZ e' ∧
    a ≤ a' ∧ e ≤ e'.
Proof.
  intros Hs Hs' HH HH' Hb Hh Hpos Hle.
  exists (startZ s b h), (startZ s' b h),
    (endZ (length (props.data p)) s H b h),
    (endZ (length (props.data p)) s' H b h).
  split; [by apply (startIndex_finite p st s b h)|].
  split; [by apply (startIndex_finite p st' s' b h)|].
  split; [by apply (endIndex_finite p st s H b h)|].
  split; [by apply (endIndex_finite p st' s' H b h)|].
  split; [by apply startZ_mono|by apply endZ_mono_scroll].
Qed.

Lemma window_monotone_in_scroll_witness :
  ∃ a a' e e' : Z,
    startIndex sampleList (stateAt 6000 600) = JS.ofZ a ∧
    startIndex sampleList (stateAt 6030 600) = JS.ofZ a' ∧
    endIndex sampleList (stateAt 6000 600) = JS.ofZ e ∧
    endIndex sampleList (stateAt 6030 600) = JS.ofZ e' ∧
    a ≤ a' ∧ e ≤ e'.
Proof.
  apply (window_monotone_in_scroll sampleList
           (stateAt 6000 600) (stateAt 6030 600)
           (Qc_of_Z 6000) (Qc_of_Z 6030) (Qc_of_Z 600) (Qc_of_Z 3)
           (Qc_of_Z 60));
    try reflexivity; by vm_compute.
Defined.

(** X3.  When both indices are integers with [0 <= startIndex <= endIndex]
    and [endIndex] inside the dataset, the rendered slice is the run of
    [endIndex - startIndex + 1] items of the dataset that starts at
    [startIndex]. *)
Theorem visibleData_is_index_range (p : props.t) (st : State) (a e : Z) :
  startIndex p st = JS.ofZ a → endIndex p st = JS.ofZ e →
  0 ≤ a → a ≤ e → e < Z.of_nat (length (props.data p)) →
  visibleData p st =
    take (Z.to_nat (e - a + 1)) (drop (Z.to_nat a) (props.data p)) ∧
  length (visibleData p st) = Z.to_nat (e - a + 1) ∧
  ∀ j : nat, Z.of_nat j ≤ e - a →
    visibleData p st !! j = props.data p !! (Z.to_nat a + j)%nat.
Proof.
  intros Ha He H0 Hae HeL.
  assert (visibleData p st =
          JS.slice (props.data p) (JS.ofZ a) (JS.ofZ (e + 1))) as Hvis.
  { unfold visibleData. by rewrite Ha, He, add_ofZ. }
  rewrite Hvis. split; [|split].
  - rewrite slice_inside by lia. do 2 f_equal. lia.
  - rewrite slice_length by lia. lia.
  - intros j Hj. apply slice_inside_lookup; lia.
Qed.

Lemma visibleData_is_index_range_witness :
  visibleData keyedList (stateAt 240 600) =
    take (Z.to_nat (3 - 1 + 1)) (drop (Z.to_nat 1) (props.data keyedList)) ∧
  length (visibleData keyedList (stateAt 240 600)) = Z.to_nat (3 - 1 + 1) ∧
  ∀ j : nat, Z.of_nat j ≤ 3 - 1 →
    visibleData keyedList (stateAt 240 600) !! j =
    props.data keyedList !! (Z.to_nat 1 + j)%nat.
Proof.
  apply (visibleData_is_index_range keyedList (stateAt 240 600) 1 3).
  - unfold keyedList. rewrite (demo_startIndex _ _ _ 3) by done.
    by vm_compute.
  - unfold keyedList. rewrite (demo_endIndex _ _ _ 3) by done.
    by vm_compute.
  - lia.
  - lia.
  - simpl. lia.
Defined.

(** X4.  Every item of the dataset that meets the viewport (its top edge is
    above the bottom of the container and its bottom edge below the
    scroll offset) lies inside the window and is in the rendered
    slice, at its distance from [startIndex]. *)
Theorem viewport_items_rendered (p : props.t) (st : State) (s H b h : Qc)
    (i : nat) (v : JS.value) :
  scrollTop st = JS.Fin s →
  containerHeight st = JS.Fin H →
  buffer p = JS.Fin b →
  props.itemHeight p = JS.Fin h →
  (0 < h)%Qc → (0 ≤ s)%Qc → (0 ≤ H)%Qc → (0 ≤ b)%Qc →
  props.data p !! i = Some v →
  (Qc_of_Z (Z.of_nat i) * h < s + H)%Qc →
  (s < (Qc_of_Z (Z.of_nat i) + 1) * h)%Qc →
  ∃ a e : Z,
    startIndex p st = JS.ofZ a ∧ endIndex p st = JS.ofZ e ∧
    0 ≤ a ∧ a ≤ Z.of_nat i ∧ Z.of_nat i ≤ e ∧
    visibleData p st !! (i - Z.to_nat a)%nat = Some v.
Proof.
  intros Hs HH Hb Hh Hpos Hs0 HH0 Hb0 Hv Htop Hbot.
  pose proof (lookup_lt_Some _ _ _ Hv) as HiL.
  pose proof (startIndex_finite p st s b h Hs Hb Hh Hpos) as Ha.
  pose proof (endIndex_finite p st s H b h Hs HH Hb Hh Hpos) as He.
  pose proof (startZ_nonneg s b h Hpos) as Ha0.
  pose proof (endZ_le_last s H b h (length (props.data p))) as HeL.
  destruct (viewport_item_in_window s H b h Hpos Hs0 HH0 Hb0
              (length (props.data p)) (Z.of_nat i)) as [Hai Hie];
    [lia|done|done|].
  exists (startZ s b h), (endZ (length (props.data p)) s H b h).
  repeat (split; [done|]).
  unfold visibleData. rewrite Ha, He, add_ofZ.
  rewrite slice_inside_lookup by lia.
  rewrite <- Hv. f_equal. lia.
Qed.

Lemma viewport_items_rendered_witness :
  ∃ a e : Z,
    startIndex keyedList (stateAt 130 600) = JS.ofZ a ∧
    endIndex keyedList (stateAt 130 600) = JS.ofZ e ∧
    0 ≤ a ∧ a ≤ Z.of_nat 2 ∧ Z.of_nat 2 ≤ e ∧
    visibleData keyedList (stateAt 130 600) !! (2 - Z.to_nat a)%nat
    = Some (withId 0).
Proof.
  apply (viewport_items_rendered keyedList (stateAt 130 600)
           (Qc_of_Z 130) (Qc_of_Z 600) (Qc_of_Z 3) (Qc_of_Z 60) 2 (withId 0));
    try reflexivity; by vm_compute.
Defined.

(** X5.  The translated block begins at or above the scroll offset, and ends
    at or below the bottom edge of the container unless it ends with the
    last item of the dataset: no gap shows inside the viewport. *)
Theorem translated_block_covers_viewport (p : props.t) (st : State)
    (s H b h : Qc) :
  scrollTop st = JS.Fin s →
  containerHeight st = JS.Fin H →
  buffer p = JS.Fin b →
  props.itemHeight p = JS.Fin h →
  (0 < h)%Qc → (0 ≤ s)%Qc → (0 ≤ H)%Qc → (0 ≤ b)%Qc →
  ∃ (a e : Z) (y : Qc),
    startIndex p st = JS.ofZ a ∧ endIndex p st = JS.ofZ e ∧
    offsetY p st = JS.Fin y ∧ (0 ≤ y)%Qc ∧ (y ≤ s)%Qc ∧
    (e = Z.of_nat (length (props.data p)) - 1 ∨
     (s + H ≤ (Qc_of_Z e + 1) * h)%Qc).
Proof.
  intros Hs HH Hb Hh Hpos Hs0 HH0 Hb0.
  pose proof (startIndex_finite p st s b h Hs Hb Hh Hpos) as Ha.
  pose proof (endIndex_finite p st s H b h Hs HH Hb Hh Hpos) as He.
  exists (startZ s b h), (endZ (length (props.data p)) s H b h),
    (Qc_of_Z (startZ s b h) * h)%Qc.
  split; [done|]. split; [done|]. split.
  { unfold offsetY. by rewrite Ha, Hh. }
  split.
  { apply Qcmult_nonneg_nonneg; [|by apply Qclt_le_weak].
    rewrite <- Z2Qc_inj_0. apply (proj1 (Z2Qc_inj_le _ _)).
    by apply startZ_nonneg. }
  split; [by apply (startZ_px_le_scroll s H b h)|
          by apply (endZ_px_ge_bottom s H b h)].
Qed.

Lemma translated_block_covers_viewport_witness :
  ∃ (a e : Z) (y : Qc),
    startIndex sampleList (stateAt 6030 600) = JS.ofZ a ∧
    endIndex sampleList (stateAt 6030 600) = JS.ofZ e ∧
    offsetY sampleList (stateAt 6030 600) = JS.Fin y ∧
    (0 ≤ y)%Qc ∧ (y ≤ Qc_of_Z 6030)%Qc ∧
    (e = Z.of_nat (length (props.data sampleList)) - 1 ∨
     (Qc_of_Z 6030 + Qc_of_Z 600 ≤ (Qc_of_Z e + 1) * Qc_of_Z 60)%Qc).
Proof.
  apply (translated_block_covers_viewport sampleList (stateAt 6030 600)
           (Qc_of_Z 6030) (Qc_of_Z 600) (Qc_of_Z 3) (Qc_of_Z 60));
    try reflexivity; by vm_compute.
Defined.

(** X6.  Inside the scroll range the host allows (at most the height of the
    spacer minus the height of the container, or 0 when the spacer is
    shorter), the window is never inverted and something is rendered. *)
Theorem window_in_scroll_range (p : props.t) (st : State) (s H b h : Qc) :
  scrollTop st = JS.Fin s →
  containerHeight st = JS.Fin H →
  buffer p = JS.Fin b →
  props.itemHeight p = JS.Fin h →
  (1 ≤ length (props.data p))%nat →
  (0 < h)%Qc → (0 ≤ s)%Qc → (0 ≤ H)%Qc → (0 ≤ b)%Qc →
  (s ≤ Qc_of_Z (Z.of_nat (length (props.data p))) * h - H)%Qc ∨ s = 0%Qc →
  ∃ a e : Z,
    startIndex p st = JS.ofZ a ∧ endIndex p st = JS.ofZ e ∧
    0 ≤ a ∧ a ≤ e ∧ e ≤ Z.of_nat (length (props.data p)) - 1 ∧
    length (visibleData p st) = Z.to_nat (e - a + 1) ∧
    visibleData p st ≠ [].
Proof.
  intros Hs HH Hb Hh HL Hpos Hs0 HH0 Hb0 Hrange.
  pose proof (startIndex_finite p st s b h Hs Hb Hh Hpos) as Ha.
  pose proof (endIndex_finite p st s H b h Hs HH Hb Hh Hpos) as He.
  pose proof (startZ_nonneg s b h Hpos) as Ha0.
  pose proof (endZ_le_last s H b h (length (props.data p))) as HeL.
  assert (0 < b)%Qc as Hbpos.
  { destruct (Qcle_lt_or_eq _ _ Hb0) as [|Heq]; [done|].
    exfalso. apply (buffer_never_zero p). rewrite Hb, <- Heq.
    unfold JS.ofZ. by rewrite Z2Qc_inj_0. }
  assert (0 < b * h)%Qc as Hbh by (by apply Qcmult_pos_pos).
  assert (0 < Qc_of_Z (Z.of_nat (length (props.data p))) * h)%Qc as HLh.
  { apply Qcmult_pos_pos; [|done].
    rewrite <- Z2Qc_inj_0. apply (proj1 (Z2Qc_inj_lt _ _)). lia. }
  assert (s - b * h < Qc_of_Z (Z.of_nat (length (props.data p))) * h)%Qc
    as Hin.
  { generalize dependent (b * h)%Qc.
    generalize dependent (Qc_of_Z (Z.of_nat (length (props.data p))) * h)%Qc.
    intros x Hrange Hx y Hy.
    destruct Hrange as [Hr| ->]; clear -Hr HH0 Hx Hy || clear -Hx Hy;
      qc_lra. }
  apply (startZ_le_endZ_iff s H b h Hpos Hs0 HH0 Hb0 _ HL) in Hin.
  exists (startZ s b h), (endZ (length (props.data p)) s H b h).
  repeat (split; [done|]).
  assert (length (visibleData p st) =
          Z.to_nat (endZ (length (props.data p)) s H b h - startZ s b h + 1))
    as Hlen.
  { rewrite (visibleData_length p st s H b h) by done. lia. }
  split; [done|].
  intros Hnil. rewrite Hnil in Hlen. simpl in Hlen. lia.
Qed.

Lemma window_in_scroll_range_witness :
  ∃ a e : Z,
    startIndex sampleList (stateAt 11400 600) = JS.ofZ a ∧
    endIndex sampleList (stateAt 11400 600) = JS.ofZ e ∧
    0 ≤ a ∧ a ≤ e ∧ e ≤ Z.of_nat (length (props.data sampleList)) - 1 ∧
    length (visibleData sampleList (stateAt 11400 600)) = Z.to_nat (e - a + 1) ∧
    visibleData sampleList (stateAt 11400 600) ≠ [].
Proof.
  apply (window_in_scroll_range sampleList (stateAt 11400 600)
           (Qc_of_Z 11400) (Qc_of_Z 600) (Qc_of_Z 3) (Qc_of_Z 60)).
  - reflexivity.
  - reflexivity.
  - reflexivity.
  - reflexivity.
  - vm_compute. lia.
  - by vm_compute.
  - by vm_compute.
  - by vm_compute.
  - by vm_compute.
  - left. by vm_compute.
Defined.

(** ** Measuring the container *)

(** X7.  Measuring twice is measuring once; measuring never moves the scroll
    offset; and a scroll event and a measurement can be handled in
    either order. *)
Theorem updateContainerHeight_composes (env : Env) (p : props.t) (st : State)
    (offset : JS.number) :
  updateContainerHeight env p (updateContainerHeight env p st) =
    updateContainerHeight env p st ∧
  scrollTop (updateContainerHeight env p st) = scrollTop st ∧
  updateContainerHeight env p (handleScroll offset st) =
    handleScroll offset (updateContainerHeight env p st).
Proof.
  unfold updateContainerHeight, handleScroll.
  destruct (containerRef env); [|done].
  destruct (props.height p) as [n|str]; [done|].
  destruct (includesPercent str); [|done].
  by destruct (parentClientHeight env).
Qed.

(** X8.  A percentage height under a parent that cannot be measured
    leaves the container height at the 0 of the setup block.  For a
    whole number [B >= 0] of buffer items the window then starts at 0
    and ends at [min(L - 1, B)], or one item later when the quotient
    [(B * h) / h] rounds above [B]: between [min(L, B + 1)] and
    [min(L, B + 2)] items are rendered in a container of height 0. *)
Theorem unmeasured_percent_height (env : Env) (p : props.t) (str : string)
    (h : Qc) (B : Z) :
  props.height p = props.HStr str →
  includesPercent str = true →
  parentClientHeight env = None →
  props.itemHeight p = JS.Fin h → (0 < h)%Qc →
  buffer p = JS.ofZ B → 0 ≤ B →
  onMounted env p (setup p) = setup p ∧
  containerHeight (onMounted env p (setup p)) = JS.ofZ 0 ∧
  startIndex p (onMounted env p (setup p)) = JS.ofZ 0 ∧
  ∃ e : Z,
    endIndex p (onMounted env p (setup p)) = JS.ofZ e ∧
    Z.min (Z.of_nat (length (props.data p)) - 1) B ≤ e ∧
    e ≤ Z.min (Z.of_nat (length (props.data p)) - 1) (B + 1) ∧
    (Nat.min (length (props.data p)) (Z.to_nat (B + 1))
     ≤ length (visibleData p (onMounted env p (setup p))))%nat ∧
    (length (visibleData p (onMounted env p (setup p)))
     ≤ Nat.min (length (props.data p)) (Z.to_nat (B + 2)))%nat.
Proof.
  intros Hheight Hpct Hparent Hh Hpos Hb HB.
  assert (onMounted env p (setup p) = setup p) as Hst.
  { unfold onMounted, updateContainerHeight.
    rewrite Hheight, Hpct, Hparent. by destruct (containerRef env). }
  rewrite Hst. split; [done|]. split; [done|].
  assert (scrollTop (setup p) = JS.Fin (Qc_of_Z 0)) as Hs by done.
  assert (containerHeight (setup p) = JS.Fin (Qc_of_Z 0)) as HH by done.
  assert (startZ (Qc_of_Z 0) (Qc_of_Z B) h = 0) as Ha.
  { rewrite startZ_integer_buffer by done.
    rewrite Z2Qc_inj_0, zero_div, <- Z2Qc_inj_0, floor_ofZ. lia. }
  assert (endZ (length (props.data p)) (Qc_of_Z 0) (Qc_of_Z 0) (Qc_of_Z B) h
          = Z.min (Z.of_nat (length (props.data p)) - 1) B) as He.
  { rewrite endZ_integer_buffer by done.
    rewrite Z2Qc_inj_0, Qcplus_0_l, zero_div, <- Z2Qc_inj_0, ceiling_ofZ.
    f_equal. }
  split.
  { rewrite (startIndex_finite _ _ _ _ _ Hs Hb Hh Hpos). by rewrite Ha. }
  exists (Z.min (Z.of_nat (length (props.data p)) - 1) B).
  split.
  { rewrite (endIndex_finite _ _ _ _ _ _ Hs HH Hb Hh Hpos). by rewrite He. }
  split; [lia|]. split; [lia|].
  assert (length (visibleData p (setup p)) =
          Nat.min (length (props.data p)) (Z.to_nat (B + 1))) as ->.
  { rewrite (visibleData_length _ _ _ _ _ _ Hs HH Hb Hh Hpos).
    - rewrite Ha, He. lia.
    - by rewrite Z2Qc_inj_0.
    - by rewrite Z2Qc_inj_0.
    - rewrite <- Z2Qc_inj_0. by apply (proj1 (Z2Qc_inj_le _ _)). }
  lia.
Qed.

Lemma unmeasured_percent_height_witness :
  onMounted orphanEnv percentProps (setup percentProps) = setup percentProps ∧
  containerHeight (onMounted orphanEnv percentProps (setup percentProps))
    = JS.ofZ 0 ∧
  startIndex percentProps (onMounted orphanEnv percentProps (setup percentProps))
    = JS.ofZ 0 ∧
  ∃ e : Z,
    endIndex percentProps
      (onMounted orphanEnv percentProps (setup percentProps)) = JS.ofZ e ∧
    Z.min (Z.of_nat (length (props.data percentProps)) - 1) 3 ≤ e ∧
    e ≤ Z.min (Z.of_nat (length (props.data percentProps)) - 1) (3 + 1) ∧
    (Nat.min (length (props.data percentProps)) (Z.to_nat (3 + 1))
     ≤ length
         (visibleData percentProps
            (onMounted orphanEnv percentProps (setup percentProps))))%nat ∧
    (length
       (visibleData percentProps
          (onMounted orphanEnv percentProps (setup percentProps)))
     ≤ Nat.min (length (props.data percentProps)) (Z.to_nat (3 + 2)))%nat.
Proof.
  apply (unmeasured_percent_height orphanEnv percentProps "50%"
           (Qc_of_Z 60) 3); try reflexivity; try (by vm_compute); lia.
Defined.

(** ** Errors and keys of a render pass *)

Section RenderOutcome.

Variable p : props.t.
Variable st : State.

Lemma renderList_normal (l : list JS.value) :
  ∀ i xs, renderList p st i l = JS.Normal xs → Forall readable l.
Proof.
  induction l as [|v l IH]; intros i xs; simpl; [by constructor|].
  unfold renderItem at 1.
  destruct (JS.get v (keyField p)) as [k|] eqn:Hk; simpl; [|done].
  destruct (renderList p st (S i) l) as [ys|] eqn:Hys; simpl; [|done].
  intros _. constructor; [|by eapply IH].
  destruct v; simpl in Hk; try done; split; discriminate.
Qed.

Lemma renderList_throw (l : list JS.value) :
  ∀ i, renderList p st i l = JS.Throw JS.TypeError →
  ∃ j v, l !! j = Some v ∧ (v = JS.VUndefined ∨ v = JS.VNull).
Proof.
  induction l as [|v l IH]; intros i; simpl; [done|].
  unfold renderItem at 1.
  destruct (JS.get v (keyField p)) as [k|] eqn:Hk; simpl.
  - destruct (renderList p st (S i) l) as [ys|e] eqn:Hys; simpl; [done|].
    intros _. destruct e. destruct (IH (S i) Hys) as (j & w & Hj & Hw).
    by exists (S j), w.
  - intros _. exists 0%nat, v. split; [done|].
    destruct v; simpl in Hk; try done; auto.
Qed.

Lemma render_slice_total :
  Forall readable (visibleData p st) →
  ∃ w, render p st = JS.Normal w ∧
       length (items w) = length (visibleData p st).
Proof.
  intros Hall.
  destruct (renderList_total p st _ Hall 0%nat) as (xs & Hxs & Hlen).
  unfold render. rewrite Hxs. simpl. eauto.
Qed.

Lemma render_normal_iff :
  (∃ v, render p st = JS.Normal v) ↔ Forall readable (visibleData p st).
Proof.
  split.
  - intros [v Hv]. apply render_items in Hv. by eapply renderList_normal.
  - intros Hall.
    destruct (renderList_total p st _ Hall 0%nat) as (xs & Hxs & _).
    unfold render. rewrite Hxs. simpl. eauto.
Qed.

End RenderOutcome.

(** X9.  A render pass throws exactly when an item inside the rendered slice
    is [null] or [undefined], and the error is then a [TypeError]; such
    an item outside the slice does no harm.  Otherwise the pass renders
    one element per item of the slice. *)
Theorem render_throws_iff (p : props.t) (st : State) :
  (render p st = JS.Throw JS.TypeError ↔
   ∃ j v, visibleData p st !! j = Some v ∧
          (v = JS.VUndefined ∨ v = JS.VNull)) ∧
  ((∃ w, render p st = JS.Normal w ∧
         length (items w) = length (visibleData p st)) ↔
   ∀ j v, visibleData p st !! j = Some v →
          v ≠ JS.VUndefined ∧ v ≠ JS.VNull).
Proof.
  assert ((∃ w, render p st = JS.Normal w) ↔
          ∀ j v, visibleData p st !! j = Some v → readable v) as Hnorm.
  { rewrite render_normal_iff. apply Forall_lookup. }
  split.
  - split.
    + intros Hthrow. unfold render in Hthrow.
      destruct (renderList p st 0 (visibleData p st)) as [xs|e] eqn:Hxs;
        simpl in Hthrow; [done|].
      destruct e. by apply (renderList_throw p st _ _ Hxs).
    + intros (j & v & Hj & Hv).
      destruct (render p st) as [w|[]] eqn:Hr; [|done].
      exfalso. assert (readable v) as [Hu Hn].
      { eapply Hnorm; eauto. }
      destruct Hv; done.
  - split.
    + intros (w & Hw & _). apply Hnorm. eauto.
    + intros Hall. apply Hnorm in Hall as Hex.
      apply render_normal_iff in Hex.
      destruct (render_slice_total p st Hex) as (w & Hw & Hlen). eauto.
Qed.

Section RenderedKeys.

Variable p : props.t.
Variable st : State.

Lemma visibleData_sublist : visibleData p st `sublist_of` props.data p.
Proof.
  unfold visibleData, JS.slice.
  etrans; [apply sublist_take|apply sublist_drop].
Qed.

Lemma truthy_field_readable (k : string) (v : JS.value) :
  JS.truthy (fieldOf k v) = true → readable v.
Proof.
  unfold fieldOf. destruct v; simpl; try done; split; discriminate.
Qed.

Lemma get_fieldOf (k : string) (v : JS.value) (x : JS.value) :
  JS.get v k = JS.Normal x → fieldOf k v = x.
Proof. unfold fieldOf. by intros ->. Qed.

(** With truthy key fields the pass completes and each key is the key
    field of its item. *)
Lemma render_truthy_keys :
  Forall (λ v, JS.truthy (fieldOf (keyField p) v) = true) (props.data p) →
  ∃ w, render p st = JS.Normal w ∧
       key <$> items w = fieldOf (keyField p) <$> visibleData p st.
Proof.
  intros Htruthy.
  assert (Forall (λ v, JS.truthy (fieldOf (keyField p) v) = true)
            (visibleData p st)) as Hvis.
  { unfold visibleData, JS.slice. by apply Forall_take, Forall_drop. }
  assert (Forall readable (visibleData p st)) as Hread.
  { eapply Forall_impl; [apply Hvis|]. intros v. apply truthy_field_readable. }
  destruct (render_slice_total p st Hread) as (w & Hw & Hlen).
  exists w. split; [done|].
  apply list_eq. intros j. rewrite !list_lookup_fmap.
  destruct (items w !! j) as [x|] eqn:Hx; simpl.
  - destruct (rendered_item p st w j x Hw Hx) as (Hit & _ & k & Hk & Hkey).
    rewrite Hit. simpl. f_equal.
    apply get_fieldOf in Hk.
    rewrite Forall_lookup in Hvis. specialize (Hvis j _ Hit).
    rewrite Hk in Hvis. rewrite Hkey, Hk. unfold JS.or. by rewrite Hvis.
  - apply lookup_ge_None in Hx. rewrite Hlen in Hx.
    apply lookup_ge_None in Hx. by rewrite Hx.
Qed.

End RenderedKeys.

(** X10.  When the key field of every item of the dataset is truthy, the pass
    completes and every key is the item's key field; if moreover no two
    items of the dataset share a key field, no two rendered items share
    a key. *)
Theorem rendered_keys_distinct (p : props.t) (st : State) :
  Forall (λ v, JS.truthy (fieldOf (keyField p) v) = true) (props.data p) →
  ∃ w, render p st = JS.Normal w ∧
       key <$> items w = fieldOf (keyField p) <$> visibleData p st ∧
       (NoDup (fieldOf (keyField p) <$> props.data p) →
        NoDup (key <$> items w)).
Proof.
  intros Htruthy.
  destruct (render_truthy_keys p st Htruthy) as (w & Hw & Hkeys).
  exists w. split; [done|]. split; [done|].
  intros Hnodup. rewrite Hkeys.
  eapply sublist_NoDup; [apply Hnodup|].
  apply fmap_sublist, visibleData_sublist.
Qed.

Lemma rendered_keys_distinct_witness :
  ∃ w, render (demoProps [withId 5; withId 6; withId 7] 60 (Some 3))
         (stateAt 0 600) = JS.Normal w ∧
       key <$> items w =
         fieldOf (keyField (demoProps [withId 5; withId 6; withId 7] 60 (Some 3)))
           <$> visibleData (demoProps [withId 5; withId 6; withId 7] 60 (Some 3))
                 (stateAt 0 600) ∧
       (NoDup (fieldOf
                 (keyField (demoProps [withId 5; withId 6; withId 7] 60 (Some 3)))
                 <$> props.data
                       (demoProps [withId 5; withId 6; withId 7] 60 (Some 3))) →
        NoDup (key <$> items w)).
Proof.
  apply (rendered_keys_distinct
           (demoProps [withId 5; withId 6; withId 7] 60 (Some 3))
           (stateAt 0 600)).
  repeat constructor.
Defined.

(** ** The demo page *)

Section DemoData.

Variable clock : Z → JS.value.

Lemma generateData_length (count : Z) :
  length (generateData clock count) = Z.to_nat count.
Proof. unfold generateData. by rewrite length_fmap, length_seqZ. Qed.

Lemma generateData_id (count : Z) (n : nat) (v : JS.value) :
  generateData clock count !! n = Some v →
  Z.of_nat n < count ∧
  fieldOf "id" v = JS.VNum (JS.ofZ (Z.of_nat n + 1)).
Proof.
  unfold generateData. rewrite list_lookup_fmap.
  destruct (seqZ 1 count !! n) as [i|] eqn:Hi; simpl; [|done].
  apply lookup_seqZ in Hi as [-> Hn]. intros [= <-].
  split; [lia|]. unfold fieldOf, JS.get.
  rewrite lookup_insert_eq. simpl. do 2 f_equal. lia.
Qed.

Lemma id_truthy (i : Z) : 1 ≤ i → JS.truthy (JS.VNum (JS.ofZ i)) = true.
Proof.
  intros Hi. simpl. case_decide as Heq; [|done].
  rewrite <- Z2Qc_inj_0 in Heq. apply Z2Qc_inj in Heq. lia.
Qed.

Lemma generateData_truthy (count : Z) :
  Forall (λ v, JS.truthy (fieldOf "id" v) = true) (generateData clock count).
Proof.
  apply Forall_lookup. intros n v Hv.
  apply generateData_id in Hv as [_ ->]. apply id_truthy. lia.
Qed.

End DemoData.

(** X11.  On the demo page every render pass completes, and every rendered
    item is keyed by its id, which is its index in the dataset plus one:
    the keys never fall back to the loop index, at any scroll offset and
    container height. *)
Theorem demo_keys_are_ids (clock : Z → JS.value) (count : Z)
    (st : State) (s h : Qc) :
  scrollTop st = JS.Fin s →
  (0 < h)%Qc →
  ∃ w,
    render (pageProps (generateData clock count) (JS.Fin h)) st = JS.Normal w ∧
    ∀ j x, items w !! j = Some x →
      ∃ n : nat,
        Z.of_nat n < count ∧
        generateData clock count !! n = Some (item x) ∧
        index x = JS.ofNat n ∧
        key x = JS.VNum (JS.ofZ (Z.of_nat n + 1)).
Proof.
  intros Hs Hpos.
  set (p := pageProps (generateData clock count) (JS.Fin h)).
  assert (keyField p = "id"%string) as Hkf by done.
  assert (buffer p = JS.Fin (Qc_of_Z 3)) as Hb by done.
  assert (props.itemHeight p = JS.Fin h) as Hh by done.
  pose proof (startIndex_finite p st s (Qc_of_Z 3) h Hs Hb Hh Hpos) as Ha.
  pose proof (startZ_nonneg s (Qc_of_Z 3) h Hpos) as Ha0.
  destruct (render_truthy_keys p st) as (w & Hw & Hkeys).
  { rewrite Hkf. apply generateData_truthy. }
  exists w. split; [done|]. intros j x Hx.
  destruct (rendered_item p st w j x Hw Hx) as (Hit & Hidx & _).
  assert (key x = fieldOf "id" (item x)) as Hkey.
  { apply (f_equal (λ l, l !! j)) in Hkeys.
    rewrite !list_lookup_fmap, Hx, Hit, Hkf in Hkeys. by injection Hkeys. }
  unfold visibleData in Hit. rewrite Ha in Hit.
  apply (slice_lookup _ _ _ _ _ Ha0) in Hit. cbn [props.data p pageProps] in Hit.
  destruct (generateData_id clock count _ _ Hit) as [Hn Hid].
  exists (Z.to_nat (startZ s (Qc_of_Z 3) h) + j)%nat.
  split; [done|]. split; [done|]. split.
  - rewrite Hidx, Ha. unfold JS.ofNat. rewrite add_ofZ. f_equal. lia.
  - by rewrite Hkey, Hid.
Qed.

Lemma demo_keys_are_ids_witness :
  ∃ w,
    render (pageProps (generateData (λ _, JS.VObj ∅) 1000) (JS.Fin (Qc_of_Z 60)))
      (stateAt 6000 600) = JS.Normal w ∧
    ∀ j x, items w !! j = Some x →
      ∃ n : nat,
        Z.of_nat n < 1000 ∧
        generateData (λ _, JS.VObj ∅) 1000 !! n = Some (item x) ∧
        index x = JS.ofNat n ∧
        key x = JS.VNum (JS.ofZ (Z.of_nat n + 1)).
Proof.
  apply (demo_keys_are_ids (λ _, JS.VObj ∅) 1000 (stateAt 6000 600)
           (Qc_of_Z 6000) (Qc_of_Z 60)); [reflexivity|by vm_compute].
Defined.

(** ** The theme manager *)

Module ThemeFacts.
Import ThemeManager.

Section Manager.

Context {W : Type}.
Implicit Types (m : t W) (pg : Page W) (h : handler W).

Lemma isValidTheme_true (theme : string) :
  isValidTheme theme = true ↔
  theme = "light"%string ∨ theme = "dark"%string ∨ theme = "system"%string.
Proof.
  unfold isValidTheme, themes. rewrite bool_decide_eq_true.
  rewrite !elem_of_cons, elem_of_nil. tauto.
Qed.

Lemma valid_truthy (theme : string) :
  isValidTheme theme = true → JS.truthy (JS.VStr theme) = true.
Proof.
  intros [->|[->| ->]]%isValidTheme_true; reflexivity.
Qed.

(** The handlers only act on [app]. *)
Lemma notify_page (isDark : bool) m pg :
  storedTheme (notifyThemeChangeHandlers isDark m pg) = storedTheme pg ∧
  darkClass (notifyThemeChangeHandlers isDark m pg) = darkClass pg ∧
  prefersDark (notifyThemeChangeHandlers isDark m pg) = prefersDark pg ∧
  app (notifyThemeChangeHandlers isDark m pg) =
    foldl (λ w h, call h (currentTheme m) isDark w) (app pg)
      (themeChangeHandlers m).
Proof.
  unfold notifyThemeChangeHandlers.
  generalize (themeChangeHandlers m) as hs. intros hs. revert pg.
  induction hs as [|h hs IH]; intros pg; simpl; [done|].
  destruct (IH (setApp (call h (currentTheme m) isDark (app pg)) pg))
    as (-> & -> & -> & ->). done.
Qed.

Lemma isDarkMode_prefers m pg pg' :
  prefersDark pg' = prefersDark pg → isDarkMode m pg' = isDarkMode m pg.
Proof. unfold isDarkMode. by intros ->. Qed.

Lemma isDarkMode_explicit m pg pg' :
  currentTheme m ≠ "system"%string →
  isValidTheme (currentTheme m) = true →
  isDarkMode m pg' = isDarkMode m pg.
Proof.
  intros Hne [Hl|[Hd|Hs]]%isValidTheme_true; unfold isDarkMode;
    [rewrite Hl|rewrite Hd|]; done.
Qed.

Lemma applyTheme_page m pg :
  storedTheme (applyTheme m pg) = storedTheme pg ∧
  darkClass (applyTheme m pg) = isDarkMode m pg ∧
  prefersDark (applyTheme m pg) = prefersDark pg ∧
  app (applyTheme m pg) =
    foldl (λ w h, call h (currentTheme m) (isDarkMode m pg) w) (app pg)
      (themeChangeHandlers m).
Proof.
  unfold applyTheme.
  destruct (notify_page (isDarkMode m pg) m (setDarkClass (isDarkMode m pg) pg))
    as (-> & -> & -> & ->). done.
Qed.

Lemma initTheme_current pg :
  currentTheme (fst (initTheme pg)) = savedOrSystem (storedTheme pg).
Proof.
  unfold initTheme, savedOrSystem. cbn [fst].
  destruct (storedTheme pg) as [s|]; [|done].
  destruct (isValidTheme s) eqn:Hv.
  - by rewrite (valid_truthy s Hv).
  - by rewrite andb_false_r.
Qed.

Lemma initTheme_handlers pg : themeChangeHandlers (fst (initTheme pg)) = [].
Proof.
  unfold initTheme. cbn [fst].
  destruct (storedTheme pg) as [s|]; [|done].
  by destruct (JS.truthy (JS.VStr s) && isValidTheme s).
Qed.

Lemma initTheme_prefers pg :
  prefersDark (snd (initTheme pg)) = prefersDark pg.
Proof.
  unfold initTheme. cbn [snd].
  set (m := match storedTheme pg with
            | Some savedTheme => _
            | None => _
            end).
  by destruct (applyTheme_page m pg) as (_ & _ & -> & _).
Qed.

Lemma initTheme_consistent pg : consistent (initTheme pg).
Proof.
  pose proof (initTheme_current pg) as Hcur.
  unfold consistent. unfold initTheme in *. simpl in *.
  set (m := match storedTheme pg with
            | Some savedTheme => _
            | None => _
            end) in *.
  destruct (applyTheme_page m pg) as (Hst & Hdark & Hpref & _).
  split; [|split].
  - rewrite Hcur. unfold savedOrSystem.
    destruct (storedTheme pg) as [s|]; [|done].
    by destruct (isValidTheme s) eqn:Hv.
  - rewrite Hdark. symmetry. by apply isDarkMode_prefers.
  - by rewrite Hst.
Qed.

Lemma setTheme_consistent (theme : string) (mp : t W * Page W) :
  consistent mp → consistent (setTheme theme mp).
Proof.
  destruct mp as [m pg]. intros Hc. unfold setTheme.
  destruct (isValidTheme theme) eqn:Hv; simpl; [|done].
  set (m' := {| currentTheme := theme;
                themeChangeHandlers := themeChangeHandlers m |}).
  destruct (applyTheme_page m' (setStoredTheme theme pg))
    as (Hst & Hdark & Hpref & _).
  split; [done|]. split; simpl.
  - rewrite Hdark. symmetry. by apply isDarkMode_prefers.
  - rewrite Hst. simpl. by rewrite Hv.
Qed.

Lemma cycleTheme_consistent (mp : t W * Page W) :
  consistent mp → consistent (cycleTheme mp).
Proof.
  intros Hc. unfold cycleTheme.
  destruct (themes !! _); [by apply setTheme_consistent|done].
Qed.

Lemma systemThemeChanged_consistent (matches : bool) (mp : t W * Page W) :
  consistent mp → consistent (systemThemeChanged matches mp).
Proof.
  destruct mp as [m pg]. intros (Hv & Hdark & Hst). simpl in *.
  unfold systemThemeChanged, handleSystemThemeChange.
  case_decide as Hsys.
  - destruct (applyTheme_page m (setPrefersDark matches pg))
      as (Hst' & Hdark' & Hpref' & _).
    split; [done|]. split; simpl.
    + rewrite Hdark'. symmetry. by apply isDarkMode_prefers.
    + by rewrite Hst'.
  - split; [done|]. split; simpl; [|done].
    rewrite Hdark. symmetry. by apply isDarkMode_explicit.
Qed.

Lemma step_consistent (mp : t W * Page W) (ev : event W) :
  consistent mp → consistent (step mp ev).
Proof.
  intros Hc. destruct ev; simpl.
  - by apply setTheme_consistent.
  - by apply cycleTheme_consistent.
  - by apply systemThemeChanged_consistent.
  - destruct mp as [m pg]. done.
  - destruct mp as [m pg]. done.
Qed.

Lemma run_consistent (evs : list (event W)) (mp : t W * Page W) :
  consistent mp → consistent (run evs mp).
Proof.
  unfold run. revert mp.
  induction evs as [|ev evs IH]; intros mp Hc; simpl; [done|].
  by apply IH, step_consistent.
Qed.

End Manager.

(** X12.  After construction and any sequence of calls and system preference
    changes, the current theme is one of [light], [dark] and [system],
    and the [dark] class of the document is set exactly when
    [isDarkMode()] answers true. *)
Theorem theme_invariant {W : Type} (pg0 : Page W) (evs : list (event W)) :
  isValidTheme (getTheme (fst (run evs (initTheme pg0)))) = true ∧
  darkClass (snd (run evs (initTheme pg0))) =
    isDarkMode (fst (run evs (initTheme pg0))) (snd (run evs (initTheme pg0))).
Proof.
  destruct (run_consistent evs _ (initTheme_consistent pg0)) as (Hv & Hd & _).
  done.
Qed.

(** X13.  Reloading the page (constructing a new manager on the page as the
    old one left it) restores the current theme and the [dark] class. *)
Theorem reload_restores_theme {W : Type} (pg0 : Page W) (evs : list (event W)) :
  getTheme (fst (initTheme (snd (run evs (initTheme pg0))))) =
    getTheme (fst (run evs (initTheme pg0))) ∧
  darkClass (snd (initTheme (snd (run evs (initTheme pg0))))) =
    darkClass (snd (run evs (initTheme pg0))).
Proof.
  destruct (run_consistent evs _ (initTheme_consistent pg0)) as (Hv & Hd & Hs).
  destruct (run evs (initTheme pg0)) as [m pg]. cbn [fst snd] in *.
  pose proof (initTheme_current pg) as Hcur. rewrite Hs in Hcur.
  unfold getTheme. split; [done|].
  destruct (initTheme_consistent pg) as (_ & Hd' & _).
  rewrite Hd', Hd. unfold isDarkMode.
  by rewrite Hcur, initTheme_prefers.
Qed.



Section Calls.

Context {W : Type}.
Implicit Types (m : t W) (pg : Page W) (h : handler W).

Lemma setTheme_current (theme : string) (mp : t W * Page W) :
  isValidTheme theme = true →
  currentTheme (fst (setTheme theme mp)) = theme.
Proof.
  intros Hv. destruct mp as [m pg]. unfold setTheme. by rewrite Hv.
Qed.

Lemma setTheme_stored (theme : string) (mp : t W * Page W) :
  isValidTheme theme = true →
  storedTheme (snd (setTheme theme mp)) = Some theme.
Proof.
  intros Hv. destruct mp as [m pg]. unfold setTheme. rewrite Hv.
  cbn [negb snd].
  match goal with
  | |- context [applyTheme ?m' ?pg'] =>
      by destruct (applyTheme_page m' pg') as (-> & _)
  end.
Qed.

(** The theme [cycleTheme] sets after each valid theme. *)
Lemma cycleTheme_setTheme (mp : t W * Page W) :
  (currentTheme (fst mp) = "light"%string →
   cycleTheme mp = setTheme "dark" mp) ∧
  (currentTheme (fst mp) = "dark"%string →
   cycleTheme mp = setTheme "system" mp) ∧
  (currentTheme (fst mp) = "system"%string →
   cycleTheme mp = setTheme "light" mp).
Proof.
  unfold cycleTheme. repeat split; by intros ->.
Qed.

Lemma cycleTheme_next (mp : t W * Page W) :
  (currentTheme (fst mp) = "light"%string →
   currentTheme (fst (cycleTheme mp)) = "dark"%string) ∧
  (currentTheme (fst mp) = "dark"%string →
   currentTheme (fst (cycleTheme mp)) = "system"%string) ∧
  (currentTheme (fst mp) = "system"%string →
   currentTheme (fst (cycleTheme mp)) = "light"%string).
Proof.
  destruct (cycleTheme_setTheme mp) as (Hl & Hd & Hs).
  repeat split; intros Hc;
    [rewrite (Hl Hc)|rewrite (Hd Hc)|rewrite (Hs Hc)];
    by apply setTheme_current.
Qed.


End Calls.

(** X14.  [cycleTheme] goes from [light] to [dark], from [dark] to [system]
    and from [system] to [light], stores each theme, and three calls
    bring a valid theme back to itself. *)
Theorem cycleTheme_order {W : Type} (mp : t W * Page W) :
  isValidTheme (getTheme (fst mp)) = true →
  (getTheme (fst mp) = "light"%string →
   getTheme (fst (cycleTheme mp)) = "dark"%string) ∧
  (getTheme (fst mp) = "dark"%string →
   getTheme (fst (cycleTheme mp)) = "system"%string) ∧
  (getTheme (fst mp) = "system"%string →
   getTheme (fst (cycleTheme mp)) = "light"%string) ∧
  storedTheme (snd (cycleTheme mp)) = Some (getTheme (fst (cycleTheme mp))) ∧
  getTheme (fst (cycleTheme (cycleTheme (cycleTheme mp)))) = getTheme (fst mp).
Proof.
  unfold getTheme. intros Hv.
  destruct (cycleTheme_next mp) as (Hl & Hd & Hs).
  split; [done|]. split; [done|]. split; [done|]. split.
  - destruct (cycleTheme_setTheme mp) as (Hl' & Hd' & Hs').
    apply isValidTheme_true in Hv.
    destruct Hv as [Hv|[Hv|Hv]];
      [rewrite (Hl' Hv)|rewrite (Hd' Hv)|rewrite (Hs' Hv)];
      by rewrite setTheme_stored, setTheme_current.
  - apply isValidTheme_true in Hv.
    destruct (cycleTheme_next (cycleTheme mp)) as (Hl1 & Hd1 & Hs1).
    destruct (cycleTheme_next (cycleTheme (cycleTheme mp))) as (Hl2 & Hd2 & Hs2).
    destruct Hv as [Hv|[Hv|Hv]]; rewrite Hv; auto.
Qed.

Lemma cycleTheme_order_witness :
  (getTheme (fst (initTheme
     {| storedTheme := Some "dark"%string; darkClass := false;
        prefersDark := false; app := tt |})) = "light"%string →
   getTheme (fst (cycleTheme (initTheme
     {| storedTheme := Some "dark"%string; darkClass := false;
        prefersDark := false; app := tt |}))) = "dark"%string) ∧
  (getTheme (fst (initTheme
     {| storedTheme := Some "dark"%string; darkClass := false;
        prefersDark := false; app := tt |})) = "dark"%string →
   getTheme (fst (cycleTheme (initTheme
     {| storedTheme := Some "dark"%string; darkClass := false;
        prefersDark := false; app := tt |}))) = "system"%string) ∧
  (getTheme (fst (initTheme
     {| storedTheme := Some "dark"%string; darkClass := false;
        prefersDark := false; app := tt |})) = "system"%string →
   getTheme (fst (cycleTheme (initTheme
     {| storedTheme := Some "dark"%string; darkClass := false;
        prefersDark := false; app := tt |}))) = "light"%string) ∧
  storedTheme (snd (cycleTheme (initTheme
     {| storedTheme := Some "dark"%string; darkClass := false;
        prefersDark := false; app := tt |}))) =
    Some (getTheme (fst (cycleTheme (initTheme
     {| storedTheme := Some "dark"%string; darkClass := false;
        prefersDark := false; app := tt |})))) ∧
  getTheme (fst (cycleTheme (cycleTheme (cycleTheme (initTheme
     {| storedTheme := Some "dark"%string; darkClass := false;
        prefersDark := false; app := tt |}))))) =
  getTheme (fst (initTheme
     {| storedTheme := Some "dark"%string; darkClass := false;
        prefersDark := false; app := tt |})).
Proof.
  apply (cycleTheme_order (initTheme
     {| storedTheme := Some "dark"%string; darkClass := false;
        prefersDark := false; app := tt |})).
  by vm_compute.
Defined.

(** X15.  A valid [setTheme] calls every registered handler once, in the order
    of registration, with the new theme and its dark flag, and changes
    nothing else of what the handlers act on; an invalid one changes
    nothing at all and calls nobody. *)
Theorem handlers_notified_in_order {W : Type} (theme : string)
    (m : t W) (pg : Page W) :
  (isValidTheme theme = true →
   app (snd (setTheme theme (m, pg))) =
     foldl (λ w h, call h theme (isDarkMode (fst (setTheme theme (m, pg))) pg) w)
       (app pg) (themeChangeHandlers m) ∧
   themeChangeHandlers (fst (setTheme theme (m, pg))) = themeChangeHandlers m) ∧
  (isValidTheme theme = false → setTheme theme (m, pg) = (m, pg)).
Proof.
  split; intros Hv; unfold setTheme; rewrite Hv; cbn [negb fst snd]; [|done].
  set (m' := {| currentTheme := theme;
                themeChangeHandlers := themeChangeHandlers m |}).
  destruct (applyTheme_page m' (setStoredTheme theme pg)) as (_ & _ & _ & ->).
  split; [|done]. cbn [app setStoredTheme themeChangeHandlers currentTheme m'].
  rewrite (isDarkMode_prefers m' (setStoredTheme theme pg) pg); done.
Qed.


(** X17.  While [light] or [dark] is selected, a change of the system
    preference calls no handler and leaves the [dark] class as it is;
    while [system] is selected, the [dark] class follows the preference
    and the handlers are told. *)
Theorem system_preference_followed {W : Type} (matches : bool)
    (m : t W) (pg : Page W) :
  (getTheme m ≠ "system"%string →
   systemThemeChanged matches (m, pg) = (m, setPrefersDark matches pg)) ∧
  (getTheme m = "system"%string →
   fst (systemThemeChanged matches (m, pg)) = m ∧
   darkClass (snd (systemThemeChanged matches (m, pg))) = matches ∧
   app (snd (systemThemeChanged matches (m, pg))) =
     foldl (λ w h, call h "system" matches w) (app pg)
       (themeChangeHandlers m)).
Proof.
  unfold getTheme, systemThemeChanged, handleSystemThemeChange.
  split; intros Hsys; case_decide; try done. cbn [fst snd].
  destruct (applyTheme_page m (setPrefersDark matches pg))
    as (_ & -> & _ & ->).
  assert (isDarkMode m (setPrefersDark matches pg) = matches) as ->.
  { unfold isDarkMode. by rewrite Hsys. }
  by rewrite Hsys.
Qed.

(** X18.  main.ts: after the manager is constructed and wired, and after any
    sequence of [setTheme] and [cycleTheme] calls and system preference
    changes, [$theme] is [dark] exactly when [isDarkMode()] answers
    true. *)
Theorem main_theme_in_sync (pg0 : Page string) (evs : list (event string)) :
  Forall (λ ev, keepsHandlers ev = true) evs →
  app (snd (run evs (main pg0))) =
    (if isDarkMode (fst (run evs (main pg0))) (snd (run evs (main pg0)))
     then "dark" else "light")%string ∧
  themeChangeHandlers (fst (run evs (main pg0))) = [mainHandler].
Proof.
  intros Hevs.
  assert (∀ mp : t string * Page string,
            themeChangeHandlers (fst mp) = [mainHandler] →
            isValidTheme (currentTheme (fst mp)) = true →
            app (snd mp) =
              (if isDarkMode (fst mp) (snd mp) then "dark" else "light")%string →
            ∀ theme,
              themeChangeHandlers (fst (setTheme theme mp)) = [mainHandler] ∧
              isValidTheme (currentTheme (fst (setTheme theme mp))) = true ∧
              app (snd (setTheme theme mp)) =
                (if isDarkMode (fst (setTheme theme mp)) (snd (setTheme theme mp))
                 then "dark" else "light")%string) as Hset.
  { intros [m pg] Hh Hv Ha theme. cbn [fst snd] in *. unfold setTheme.
    destruct (isValidTheme theme) eqn:Hvt; cbn [negb fst snd]; [|done].
    set (m' := {| currentTheme := theme;
                  themeChangeHandlers := themeChangeHandlers m |}).
    destruct (applyTheme_page m' (setStoredTheme theme pg))
      as (_ & _ & Hp & Happ).
    split; [done|]. split; [done|].
    rewrite (isDarkMode_prefers m' _ _ Hp), Happ.
    cbn [themeChangeHandlers m']. by rewrite Hh. }
  unfold run.
  cut (themeChangeHandlers (fst (foldl step (main pg0) evs)) = [mainHandler] ∧
       isValidTheme (currentTheme (fst (foldl step (main pg0) evs))) = true ∧
       app (snd (foldl step (main pg0) evs)) =
         (if isDarkMode (fst (foldl step (main pg0) evs))
               (snd (foldl step (main pg0) evs))
          then "dark" else "light")%string).
  { intros (? & ? & ?). done. }
  assert (themeChangeHandlers (fst (main pg0)) = [mainHandler] ∧
          isValidTheme (currentTheme (fst (main pg0))) = true ∧
          app (snd (main pg0)) =
            (if isDarkMode (fst (main pg0)) (snd (main pg0))
             then "dark" else "light")%string) as Hinit.
  { unfold main. destruct (initTheme_consistent pg0) as (Hv & _ & _).
    pose proof (initTheme_handlers pg0) as Hh.
    destruct (initTheme pg0) as [m pg]. cbn [fst snd] in *.
    unfold onThemeChange, isDarkMode.
    cbn [themeChangeHandlers currentTheme app prefersDark setApp].
    by rewrite Hh. }
  revert Hinit. generalize (main pg0) as mp.
  induction Hevs as [|ev evs Hev _ IH]; intros mp Hinv; [done|].
  cbn [foldl]. apply IH. destruct Hinv as (Hh & Hv & Ha).
  destruct ev as [theme| |matches|h|h]; try done; cbn [step].
  - by apply Hset.
  - unfold cycleTheme. destruct (themes !! _); [by apply Hset|done].
  - destruct mp as [m pg]. cbn [fst snd] in *.
    unfold systemThemeChanged, handleSystemThemeChange.
    case_decide as Hsys; cbn [fst snd].
    + destruct (applyTheme_page m (setPrefersDark matches pg))
        as (_ & _ & Hp & Happ).
      split; [done|]. split; [done|].
      rewrite (isDarkMode_prefers m _ _ Hp), Happ. by rewrite Hh.
    + split; [done|]. split; [done|].
      rewrite (isDarkMode_explicit m pg (setPrefersDark matches pg)) by done.
      done.
Qed.

Lemma main_theme_in_sync_witness :
  app (snd (run [SetTheme "dark"; CycleTheme; SystemThemeChanged true]%string
              (main {| storedTheme := None; darkClass := false;
                       prefersDark := false; app := ""%string |}))) =
    (if isDarkMode
          (fst (run [SetTheme "dark"; CycleTheme; SystemThemeChanged true]%string
                  (main {| storedTheme := None; darkClass := false;
                           prefersDark := false; app := ""%string |})))
          (snd (run [SetTheme "dark"; CycleTheme; SystemThemeChanged true]%string
                  (main {| storedTheme := None; darkClass := false;
                           prefersDark := false; app := ""%string |})))
     then "dark" else "light")%string ∧
  themeChangeHandlers
    (fst (run [SetTheme "dark"; CycleTheme; SystemThemeChanged true]%string
            (main {| storedTheme := None; darkClass := false;
                     prefersDark := false; app := ""%string |})))
  = [mainHandler].
Proof.
  apply (main_theme_in_sync
           {| storedTheme := None; darkClass := false;
              prefersDark := false; app := ""%string |}
           [SetTheme "dark"; CycleTheme; SystemThemeChanged true]%string).
  repeat constructor.
Defined.

End ThemeFacts.
